(** * mdb-lookup-server: the lookup session of the TCP record server

    A shallow embedding of [mdb-lookup-server.c]: the database loader, the
    key extraction, the linear search with its running counter, the
    line-oriented reply and the accept loop, followed by the properties the
    specification states about them.

    Conventions.
    - A [char] is an [ascii]; a buffer is a [list ascii].
    - A C string read out of a buffer stops at the first NUL; reading past
      the end of the object that holds it has no defined result and is
      reported as [None] / [Fault].
    - [int] and [size_t] arithmetic is carried out on [Z] with the
      wrap-around written out.
    - The outside world (file contents, allocator, peer) is an explicit
      parameter of every operation that consults it. *)

From Stdlib Require Import List ZArith Lia Bool Ascii String DecimalString.
From Stdlib Require Import Sorted.
From Stdlib Require DecimalFacts DecimalPos DecimalZ.
From Equations Require Import Equations.
Import ListNotations.

Set Implicit Arguments.
Local Open Scope Z_scope.

(** ** Characters and C strings *)

Module CStr.

Definition NUL : ascii := "000"%char.
Definition LF  : ascii := "010"%char.

(** Literal text of the source, as a list of characters. *)
Definition lit (s : string) : list ascii := list_ascii_of_string s.

Definition is_nul (c : ascii) : bool := Ascii.eqb c NUL.

(** The characters in front of the first NUL of [buf]: what [strlen],
    [strstr] and the conversion [%s] see of a buffer that is known to hold
    a terminator. *)
Fixpoint until_nul (buf : list ascii) : list ascii :=
  match buf with
  | [] => []
  | c :: rest => if is_nul c then [] else c :: until_nul rest
  end.

(** The same scan over an object that may lack a terminator: [None] when
    the scan leaves the object. *)
Fixpoint c_str (mem : list ascii) : option (list ascii) :=
  match mem with
  | [] => None
  | c :: rest =>
      if is_nul c then Some []
      else match c_str rest with
           | Some s => Some (c :: s)
           | None => None
           end
  end.

Definition strlen (buf : list ascii) : nat := List.length (until_nul buf).

(** [strncpy(dst, src, n)]: at most [n] characters of the string [src],
    NUL-padded to exactly [n] bytes.  [src] is given by the characters
    stored in front of its terminator, so running off the end of the list
    is meeting that terminator. *)
Fixpoint strncpy (n : nat) (src : list ascii) : list ascii :=
  match n with
  | O => []
  | S n' =>
      match src with
      | [] => repeat NUL n
      | c :: rest => if is_nul c then repeat NUL n else c :: strncpy n' rest
      end
  end.

(** Is [needle] an initial segment of [hay]? *)
Fixpoint starts_with (needle hay : list ascii) : bool :=
  match needle, hay with
  | [], _ => true
  | _ :: _, [] => false
  | a :: needle', b :: hay' => Ascii.eqb a b && starts_with needle' hay'
  end.

(** [strstr(haystack, needle)]: the offset of the first occurrence, [None]
    for the null pointer. *)
Fixpoint strstr (haystack needle : list ascii) : option nat :=
  if starts_with needle haystack then Some O
  else match haystack with
       | [] => None
       | _ :: rest =>
           match strstr rest needle with
           | Some k => Some (S k)
           | None => None
           end
       end.

(** A pointer used as a condition. *)
Definition non_null (p : option nat) : bool :=
  match p with Some _ => true | None => false end.

(** The byte-for-byte (hence case-sensitive) substring relation of the
    specification. *)
Definition substring (key text : list ascii) : Prop :=
  exists before after, text = before ++ key ++ after.

End CStr.
Import CStr.

(** ** Machine integers *)

Definition INT_MAX : Z := 2 ^ 31 - 1.
Definition SIZE_MODULUS : Z := 2 ^ 64.

(** The value an [int] holds after a result [z] has been stored in it.
    ([recordCount++] past [INT_MAX] has no defined result in C; the
    two's-complement wrap of the usual targets is written out.) *)
Definition wrap_int (z : Z) : Z := (z + 2 ^ 31) mod 2 ^ 32 - 2 ^ 31.

(** The value a [size_t] holds after a result [z] has been stored in it. *)
Definition wrap_size (z : Z) : Z := z mod SIZE_MODULUS.

(** ** Constants of the source *)

Definition MAX_CONNECTIONS : Z := 5.
Definition MAX_KEY_LENGTH : nat := 5.
Definition QUERY_LINE_SIZE : nat := 1000.   (* char queryLine[1000] *)

(** ** Extraction of the search key

    [[
      strncpy(searchKey, queryLine, sizeof(searchKey) - 1);
      searchKey[sizeof(searchKey) - 1] = '\0';
      size_t lastChar = strlen(searchKey) - 1;
      if (searchKey[lastChar] == '\n')
          searchKey[lastChar] = '\0';
    ]] *)

(** [char searchKey[MAX_KEY_LENGTH + 1]] after the copy and the forced
    terminator. *)
Definition searchKey_buffer (queryLine : list ascii) : list ascii :=
  strncpy MAX_KEY_LENGTH queryLine ++ [NUL].

Definition lastChar (searchKey : list ascii) : Z :=
  wrap_size (Z.of_nat (strlen searchKey) - 1).

(** [buf[i] = c] for an index inside the buffer. *)
Fixpoint store_at (buf : list ascii) (i : nat) (c : ascii) : list ascii :=
  match buf, i with
  | [], _ => []
  | _ :: rest, O => c :: rest
  | b :: rest, S i' => b :: store_at rest i' c
  end.

(** [buf[i]] for a [size_t] index: [None] when [i] is not the index of an
    element of [buf]. *)
Definition index (buf : list ascii) (i : Z) : option ascii :=
  if (0 <=? i) && (i <? Z.of_nat (List.length buf))
  then nth_error buf (Z.to_nat i)
  else None.

(** The newline trim.  The index is looked up in the six bytes of the
    buffer; [None] is the out-of-range access. *)
Definition trim_newline (searchKey : list ascii) : option (list ascii) :=
  let i := lastChar searchKey in
  match index searchKey i with
  | None => None
  | Some c =>
      if Ascii.eqb c LF then Some (store_at searchKey (Z.to_nat i) NUL)
      else Some searchKey
  end.

(** The key as the search sees it: the string held by the trimmed buffer. *)
Definition extract_key (queryLine : list ascii) : option (list ascii) :=
  match trim_newline (searchKey_buffer queryLine) with
  | Some buf => Some (until_nul buf)
  | None => None
  end.

(** ** Records

    [mdb.h] is not part of the sources at hand; the layout is the one the
    README documents:
    [[
      struct MdbRec { char name[50]; char msg[200]; };
    ]]
    Both members are [char] arrays, so the structure has no padding and
    [msg] starts right behind [name]. *)

Definition NAME_SIZE : nat := 50.
Definition MSG_SIZE : nat := 200.
Definition RECORD_SIZE : nat := 250.   (* sizeof(struct MdbRec) *)

Record MdbRec : Type := mkMdbRec {
  name : list ascii;
  msg : list ascii
}.

(** [memcpy] of one block read from the file onto a [struct MdbRec]. *)
Definition MdbRec_of_block (block : list ascii) : MdbRec :=
  {| name := firstn NAME_SIZE block; msg := skipn NAME_SIZE block |}.

(** [currentRecord->name] used as a string.  A name without terminator
    runs on into [msg], which follows it in memory. *)
Definition name_str (r : MdbRec) : option (list ascii) := c_str (name r ++ msg r).

(** [currentRecord->msg] used as a string. *)
Definition msg_str (r : MdbRec) : option (list ascii) := c_str (msg r).

(** The data model of the specification: each field holds its text and a
    terminator inside its own array. *)
Definition well_formed (r : MdbRec) : Prop :=
  In NUL (name r) /\ In NUL (msg r).

(** ** Formatting: [sprintf(resultBuffer, "%4d: {%s} said {%s}\n", ...)] *)

Definition decimal (z : Z) : list ascii :=
  list_ascii_of_string (NilZero.string_of_int (Z.to_int z)).

(** The conversion [%4d]: right-justified in a field of at least four. *)
Definition fmt_4d (z : Z) : list ascii :=
  let digits := decimal z in
  repeat " "%char (4 - List.length digits)%nat ++ digits.

(** [char resultBuffer[1000]] is never too small for a record of the file:
    at most 11 characters of ordinal, 13 of punctuation, 249 of name and
    199 of message. *)
Definition result_line (recordCount : Z) (nm ms : list ascii) : list ascii :=
  fmt_4d recordCount ++ lit ": {" ++ nm ++ lit "} said {" ++ ms ++ [ "}"%char; LF ].

(** The end-of-results sentinel: [sprintf(resultBuffer, "\n")]. *)
Definition blank_line : list ascii := [LF].

(** ** Observable events, session state, outcomes *)

Inductive event : Type :=
| EvConnected (peer : string)            (* "Connection established with: ..." on stderr *)
| EvTerminated (peer : string)           (* "Connection terminated from: ..." on stderr *)
| EvPerror (message : string)            (* perror(message) *)
| EvRecv (queryLine : list ascii)        (* fgets delivered a line *)
| EvSend (buf : list ascii) (ret : Z).   (* send(clientSocket, buf, len, 0) returned ret *)

(** The peer end of the connection: what the [n]-th call of [send] on this
    socket returns when handed [buf], as the value that ends up in
    [int sendResult] (-1, or the number of bytes taken). *)
Definition socket : Type := nat -> list ascii -> Z.

Record state : Type := mkState {
  trace : list event;    (* everything observable so far, oldest first *)
  nsend : nat            (* calls of send made on the current socket *)
}.

Inductive result (A : Type) : Type :=
| Ok (a : A) (s : state)          (* control continues *)
| Exit (status : Z) (s : state)   (* the process has called exit(status) *)
| Fault (s : state).              (* an access outside an object *)
Arguments Ok {A} a s.
Arguments Exit {A} status s.
Arguments Fault {A} s.

Definition log (e : event) (s : state) : state :=
  {| trace := trace s ++ [e]; nsend := nsend s |}.

Definition perror (message : string) (s : state) : state :=
  log (EvPerror message) s.

(** [static void terminate(const char *message)]: [perror] then [exit(1)]. *)
Definition terminate {A : Type} (message : string) (s : state) : result A :=
  Exit 1 (perror message s).

Definition send (sock : socket) (buf : list ascii) (s : state) : Z * state :=
  let ret := sock (nsend s) buf in
  (ret, {| trace := trace s ++ [EvSend buf ret]; nsend := S (nsend s) |}).

(** ** The search: one pass over the list with a running counter

    [[
      currentNode = recordList.head;
      int recordCount = 1;
      while (currentNode) {
          currentRecord = currentNode->data;
          if (strstr(currentRecord->name, searchKey) || strstr(currentRecord->msg, searchKey)) {
              resultLength = sprintf(resultBuffer, "%4d: {%s} said {%s}\n", ...);
              if ((sendResult = send(clientSocket, resultBuffer, resultLength, 0)) != resultLength) {
                  perror("send() failed");
                  break;
              }
          }
          currentNode = currentNode->next;
          recordCount++;
      }
    ]] *)

Definition record_matches (nm ms searchKey : list ascii) : bool :=
  non_null (strstr nm searchKey) || non_null (strstr ms searchKey).

Fixpoint search_loop (sock : socket) (searchKey : list ascii)
    (currentNode : list MdbRec) (recordCount : Z) (s : state) : result unit :=
  match currentNode with
  | [] => Ok tt s
  | currentRecord :: next =>
      match name_str currentRecord, msg_str currentRecord with
      | Some nm, Some ms =>
          if record_matches nm ms searchKey then
            let resultBuffer := result_line recordCount nm ms in
            let resultLength := Z.of_nat (List.length resultBuffer) in
            let (sendResult, s1) := send sock resultBuffer s in
            if negb (sendResult =? resultLength)
            then Ok tt (perror "send() failed" s1)          (* break *)
            else search_loop sock searchKey next (wrap_int (recordCount + 1)) s1
          else search_loop sock searchKey next (wrap_int (recordCount + 1)) s
      | _, _ => Fault s
      end
  end.

(** The body of the query loop for one line delivered by [fgets]. *)
Definition respond (recordList : list MdbRec) (sock : socket)
    (queryLine : list ascii) (s : state) : result unit :=
  match extract_key queryLine with
  | None => Fault s
  | Some searchKey =>
      match search_loop sock searchKey recordList 1 s with
      | Ok _ s1 =>
          let resultBuffer := blank_line in
          let resultLength := Z.of_nat (List.length resultBuffer) in
          let (sendResult, s2) := send sock resultBuffer s1 in
          if negb (sendResult =? resultLength)
          then Ok tt (perror "send() failed" s2)
          else Ok tt s2
      | Exit status s1 => Exit status s1
      | Fault s1 => Fault s1
      end
  end.

(** ** Streams: the [FILE] objects of the database file and of the socket *)

Record FILE : Type := mkFILE {
  pending : list ascii;   (* the bytes the stream will still deliver *)
  broken : bool;          (* once they are used up: a read error (true) or end-of-file (false) *)
  eof_ind : bool;         (* the end-of-file indicator *)
  err_ind : bool          (* the error indicator *)
}.

(** A stream as [fopen] / [fdopen] hands it out. *)
Definition fresh_stream (bytes : list ascii) (fails : bool) : FILE :=
  {| pending := bytes; broken := fails; eof_ind := false; err_ind := false |}.

Definition ferror (fp : FILE) : bool := err_ind fp.

(** The stream after a read has consumed [rest]'s complement. *)
Definition advance (fp : FILE) (rest : list ascii) : FILE :=
  {| pending := rest; broken := broken fp; eof_ind := eof_ind fp; err_ind := err_ind fp |}.

(** The stream after a read has run into its end. *)
Definition run_dry (fp : FILE) : FILE :=
  {| pending := [];
     broken := broken fp;
     eof_ind := eof_ind fp || negb (broken fp);
     err_ind := err_ind fp || broken fp |}.

(** [fread(&record, sizeof(record), 1, filePointer)]: one whole block
    ([Some], the call returns 1) or no item at all ([None], it returns 0). *)
Definition fread_record (fp : FILE) : option (list ascii) * FILE :=
  if (RECORD_SIZE <=? List.length (pending fp))%nat
  then (Some (firstn RECORD_SIZE (pending fp)), advance fp (skipn RECORD_SIZE (pending fp)))
  else (None, run_dry fp).

(** The characters [fgets] stores when it has [room] places for them: it
    stops behind a newline, when the room is used up, or at the end of the
    stream (third component). *)
Fixpoint read_line (room : nat) (bytes : list ascii) : list ascii * list ascii * bool :=
  match room with
  | O => ([], bytes, false)
  | S room' =>
      match bytes with
      | [] => ([], [], true)
      | c :: rest =>
          if Ascii.eqb c LF then ([c], rest, false)
          else let '(line, rest', at_end) := read_line room' rest in
               (c :: line, rest', at_end)
      end
  end.

(** [fgets(buf, size, fp)]: [None] is the null pointer (end-of-file with
    nothing read, or a read error); otherwise the characters stored in
    front of the terminator. *)
Definition fgets (size : nat) (fp : FILE) : option (list ascii) * FILE :=
  let '(line, rest, at_end) := read_line (size - 1) (pending fp) in
  if at_end then
    if broken fp then (None, run_dry fp)
    else match line with
         | [] => (None, run_dry fp)
         | _ :: _ => (Some line, run_dry fp)
         end
  else (Some line, advance fp rest).

(** ** Loading the database *)

(** The allocator: whether the [k]-th record copy and the [k]-th list node
    can be obtained. *)
Record allocator : Type := mkAllocator {
  malloc_ok : nat -> bool;
  node_ok : nat -> bool
}.

(** Modelled from the spec: [addAfter] of [mylist.h], which is not among
    the sources at hand.  The store is "an ordered sequence of Records,
    insertion order = file order".  A node is named by its place in the
    list, the null pointer is [None]: [addAfter(list, prevNode, data)]
    links a new node that holds [data] behind [prevNode], at the head of
    the list for the null pointer, and returns the new node; it returns
    the null pointer and leaves the list as it is when no node can be
    allocated. *)
Definition addAfter (ok : bool) (recordList : list MdbRec)
    (prevNode : option nat) (data : MdbRec)
  : option (list MdbRec * nat) :=
  if ok then
    match prevNode with
    | None => Some (data :: recordList, O)
    | Some i =>
        Some (firstn (S i) recordList ++ data :: skipn (S i) recordList, S i)
    end
  else None.

Definition inspect {A : Type} (a : A) : {b : A | a = b} := exist _ a eq_refl.

(** [[
      struct Node *node = NULL;
      while (fread(&record, sizeof(record), 1, filePointer) == 1) {
          recordCopy = malloc(sizeof(record));
          if (!recordCopy) terminate("Memory allocation failed");
          memcpy(recordCopy, &record, sizeof(record));
          node = addAfter(&recordList, node, recordCopy);
          if (node == NULL) terminate("Failed to add record to list");
      }
    ]] *)
Equations? load_loop (mem : allocator) (filePointer : FILE)
    (recordList : list MdbRec) (node : option nat) (s : state)
  : result (list MdbRec * FILE) by wf (List.length (pending filePointer)) lt :=
  load_loop mem filePointer recordList node s
    with inspect (fread_record filePointer) => {
    | exist _ (None, fp') _ => Ok (recordList, fp') s
    | exist _ (Some record, fp') E =>
        if negb (malloc_ok mem (List.length recordList))
        then terminate "Memory allocation failed" s
        else match addAfter (node_ok mem (List.length recordList)) recordList
                            node (MdbRec_of_block record) with
             | None => terminate "Failed to add record to list" s
             | Some (recordList', node') =>
                 load_loop mem fp' recordList' (Some node') s
             end }.
Proof.
  (* a block was read: the stream is 250 bytes shorter *)
  unfold fread_record in E.
  destruct (Nat.leb_spec RECORD_SIZE (List.length (pending filePointer)));
    [| discriminate E].
  apply (f_equal snd) in E. cbn [snd] in E. subst fp'.
  unfold advance; cbn [pending].
  rewrite length_skipn. unfold RECORD_SIZE in *. lia.
Qed.

(** [fopen], the read loop and the [ferror] check behind it.  [db] is what
    [fopen(databaseFile, "rb")] yields: [None] for the null pointer. *)
Definition load_database (db : option FILE) (mem : allocator) (s : state)
  : result (list MdbRec * FILE) :=
  match db with
  | None => terminate "Failed to open database file" s
  | Some filePointer =>
      match load_loop mem filePointer [] None s with
      | Ok (recordList, fp) s1 =>
          if ferror fp then terminate "Error reading database file" s1
          else Ok (recordList, fp) s1
      | Exit status s1 => Exit status s1
      | Fault s1 => Fault s1
      end
  end.

(** ** The query loop *)

(** [[
      while (fgets(queryLine, sizeof(queryLine), clientInput) != NULL) {
          ... extract the key, search, send the blank line ...
      }
    ]] *)
Equations? query_loop (recordList : list MdbRec) (sock : socket)
    (clientInput : FILE) (s : state)
  : result FILE by wf (List.length (pending clientInput)) lt :=
  query_loop recordList sock clientInput s
    with inspect (fgets QUERY_LINE_SIZE clientInput) => {
    | exist _ (None, fp') _ => Ok fp' s
    | exist _ (Some queryLine, fp') E
        with respond recordList sock queryLine (log (EvRecv queryLine) s) => {
        | Ok _ s' => query_loop recordList sock fp' s'
        | Exit status s' => Exit status s'
        | Fault s' => Fault s' } }.
Proof.
  (* a line was delivered: it holds at least one byte of the stream *)
  assert (Hread : forall room bytes line rest at_end,
             read_line room bytes = (line, rest, at_end) ->
             bytes = line ++ rest /\ (at_end = false -> room <> O -> line <> [])).
  { clear. induction room as [| room IH]; intros bytes line rest at_end H; cbn in H.
    - inversion H; subst. split; [reflexivity | congruence].
    - destruct bytes as [| c bs]; [inversion H; subst; split; [reflexivity | discriminate] |].
      destruct (Ascii.eqb c LF);
        [inversion H; subst; split; [reflexivity | intros _ _; discriminate] |].
      destruct (read_line room bs) as [[l r] e] eqn:E.
      inversion H; subst. destruct (IH _ _ _ _ E) as (-> & _).
      split; [reflexivity | intros _ _; discriminate]. }
  unfold fgets in E.
  destruct (read_line (QUERY_LINE_SIZE - 1) (pending clientInput))
    as [[l r] e] eqn:Er.
  destruct (Hread _ _ _ _ _ Er) as (-> & Hline).
  rewrite length_app. destruct e.
  - destruct (broken clientInput); [discriminate |].
    destruct l as [| c l]; [discriminate |].
    apply (f_equal snd) in E. cbn [snd] in E. subst fp'. cbn. lia.
  - apply (f_equal snd) in E. cbn [snd] in E. subst fp'.
    unfold advance; cbn [pending].
    assert (l <> []) by (apply Hline; [reflexivity | discriminate]).
    destruct l; [congruence | cbn; lia].
Qed.

(** ** One client session: [processClientRequest] *)

Record connection : Type := mkConnection {
  peer : string;                      (* inet_ntoa(clientAddr.sin_addr) *)
  database : option FILE;             (* fopen(databaseFile, "rb") at this moment *)
  mem : allocator;
  fdopen_ok : bool;                   (* fdopen(clientSocket, "r") != NULL *)
  client_bytes : list ascii;          (* what the client writes before it stops *)
  client_broken : bool;               (* it stops with a read error rather than a close *)
  sock : socket
}.

Definition processClientRequest (c : connection) (s : state) : result unit :=
  match load_database (database c) (mem c) s with
  | Ok (recordList, filePointer) s1 =>
      if negb (fdopen_ok c)
      then terminate "Failed to associate file stream with socket" s1
      else
        match query_loop recordList (sock c)
                (fresh_stream (client_bytes c) (client_broken c)) s1 with
        | Ok clientInput s2 =>
            (* the list is emptied and both streams are closed: nothing observable *)
            if ferror clientInput then Ok tt (perror "fgets() failed" s2)
            else Ok tt s2
        | Exit status s2 => Exit status s2
        | Fault s2 => Fault s2
        end
  | Exit status s1 => Exit status s1
  | Fault s1 => Fault s1
  end.

(** ** The accept loop of [main] *)

Inductive arrival : Type :=
| AcceptFailed                    (* accept() returned a negative value *)
| Accepted (c : connection).

Inductive server : Type :=
| InAccept (tr : list event)               (* blocked in accept(), nobody arrives *)
| Exited (status : Z) (tr : list event)    (* the process is gone *)
| Faulted (tr : list event).

(** [[
      for (;;) {
          if ((clientSocket = accept(...)) < 0) terminate("accept() failed");
          fprintf(stderr, "\nConnection established with: %s\n", ...);
          processClientRequest(clientSocket, databaseFile);
          fprintf(stderr, "Connection terminated from: %s\n", ...);
      }
    ]] *)
Fixpoint accept_loop (arrivals : list arrival) (tr : list event) : server :=
  match arrivals with
  | [] => InAccept tr
  | AcceptFailed :: _ => Exited 1 (tr ++ [EvPerror "accept() failed"])
  | Accepted c :: later =>
      match processClientRequest c
              {| trace := tr ++ [EvConnected (peer c)]; nsend := 0 |} with
      | Ok _ s => accept_loop later (trace s ++ [EvTerminated (peer c)])
      | Exit status s => Exited status (trace s)
      | Fault s => Faulted (trace s)
      end
  end.

(** [main] up to the loop: any failure here ends the process before a
    client is served. *)
Record startup : Type := mkStartup {
  signal_ok : bool;    (* signal(SIGPIPE, SIG_IGN) != SIG_ERR *)
  argc : Z;
  socket_ok : bool;
  bind_ok : bool;
  listen_ok : bool     (* listen(serverSocket, MAX_CONNECTIONS) >= 0 *)
}.

Definition main (boot : startup) (arrivals : list arrival) : server :=
  if negb (signal_ok boot) then Exited 1 [EvPerror "signal() failed"]
  else if negb (argc boot =? 3) then Exited 1 []          (* usage text, exit(1) *)
  else if negb (socket_ok boot) then Exited 1 [EvPerror "socket() failed"]
  else if negb (bind_ok boot) then Exited 1 [EvPerror "bind() failed"]
  else if negb (listen_ok boot) then Exited 1 [EvPerror "listen() failed"]
  else accept_loop arrivals [].

(** ** Vocabulary of the specification *)

(** The text a field holds: the characters in front of its terminator. *)
Definition name_text (r : MdbRec) : list ascii := until_nul (name r).
Definition msg_text (r : MdbRec) : list ascii := until_nul (msg r).

(** A record matches a key when the key occurs in one of its two texts. *)
Definition matches (key : list ascii) (r : MdbRec) : bool :=
  record_matches (name_text r) (msg_text r) key.

(** The store with the 0-based load position of every record. *)
Definition enumerate (from : nat) (store : list MdbRec) : list (nat * MdbRec) :=
  combine (seq from (List.length store)) store.

(** The matching records of a store, in store order, each with its load
    position. *)
Definition Search (store : list MdbRec) (key : list ascii) : list (nat * MdbRec) :=
  filter (fun p => matches key (snd p)) (enumerate 0 store).

(** The value [recordCount] holds when the loop examines the node at
    0-based position [i]: it starts at 1 and is incremented, as an [int],
    once per node passed. *)
Definition recordCount_at (i : nat) : Z :=
  Nat.iter i (fun recordCount => wrap_int (recordCount + 1)) 1.

(** The line the server formats for the record at position [i]. *)
Definition line_of (p : nat * MdbRec) : list ascii :=
  result_line (recordCount_at (fst p)) (name_text (snd p)) (msg_text (snd p)).

(** A final newline removed. *)
Definition chomp (text : list ascii) : list ascii :=
  if Ascii.eqb (last text NUL) LF then removelast text else text.

(** The key of a query line in the words of the specification: the line
    cut to the maximum key length, without its trailing newline.  A line
    that holds no character in front of a NUL has no key. *)
Definition key_of_line (queryLine : list ascii) : option (list ascii) :=
  match until_nul (firstn MAX_KEY_LENGTH queryLine) with
  | [] => None
  | text => Some (chomp text)
  end.

(** The buffers handed to [send] in a run of events, in order. *)
Fixpoint sent_bufs (evs : list event) : list (list ascii) :=
  match evs with
  | [] => []
  | EvSend buf _ :: rest => buf :: sent_bufs rest
  | _ :: rest => sent_bufs rest
  end.

(** The query lines [fgets] has delivered in a run of events, in order. *)
Fixpoint received (evs : list event) : list (list ascii) :=
  match evs with
  | [] => []
  | EvRecv line :: rest => line :: received rest
  | _ :: rest => received rest
  end.

(** A peer that takes every buffer whole. *)
Definition accepts_all (sock : socket) : Prop :=
  forall n buf, sock n buf = Z.of_nat (List.length buf).

(** An allocator that never runs out. *)
Definition never_fails (mem : allocator) : Prop :=
  forall k, malloc_ok mem k = true /\ node_ok mem k = true.

(** The node at the end of a list: the null pointer for the empty list. *)
Definition last_node (recordList : list MdbRec) : option nat :=
  match recordList with
  | [] => None
  | _ :: rest => Some (List.length rest)
  end.

(** The complete blocks of a file image, in file order. *)
Definition block_at (bytes : list ascii) (i : nat) : list ascii :=
  firstn RECORD_SIZE (skipn (RECORD_SIZE * i) bytes).

Definition records_of (bytes : list ascii) : list MdbRec :=
  map (fun i => MdbRec_of_block (block_at bytes i))
      (seq 0 (List.length bytes / RECORD_SIZE)).

(** Sending [bufs] in order and giving up behind the first call that does
    not take its buffer whole: the events the search produces on a socket
    that has seen [n] calls. *)
Fixpoint attempted (sock : socket) (n : nat) (bufs : list (list ascii)) : list event :=
  match bufs with
  | [] => []
  | buf :: more =>
      let ret := sock n buf in
      EvSend buf ret ::
        (if negb (ret =? Z.of_nat (List.length buf))
         then [EvPerror "send() failed"]
         else attempted sock (S n) more)
  end.

(** The events of the end-of-results sentinel. *)
Definition sentinel (sock : socket) (n : nat) : list event :=
  let ret := sock n blank_line in
  EvSend blank_line ret ::
    (if negb (ret =? 1) then [EvPerror "send() failed"] else []).

(** The events of one reply on a socket that has seen [n] calls. *)
Definition reply_events (store : list MdbRec) (sock : socket) (n : nat)
    (searchKey : list ascii) : list event :=
  let evs := attempted sock n (map line_of (Search store searchKey)) in
  evs ++ sentinel sock (n + List.length (sent_bufs evs)).

(** The behaviour on a failed write that closes the session at once: behind
    a result line that the peer did not take whole, the connection sees no
    further call of [send] and delivers no further query line. *)
Definition closes_after_failed_result (tr : list event) : Prop :=
  forall before buf ret behind,
    tr = before ++ EvSend buf ret :: behind ->
    buf <> blank_line ->
    ret <> Z.of_nat (List.length buf) ->
    sent_bufs behind = [] /\ received behind = [].

(** The loader refusing a file: the process ends in [terminate]. *)
Definition refuses (bytes : list ascii) (mem : allocator) (s : state) : Prop :=
  exists status s',
    load_database (Some (fresh_stream bytes false)) mem s = Exit status s'.

(** ** Records as the scan reads them *)

(** A record the scan can read: the message holds its terminator, so both
    strings of the record end inside it. *)
Definition readable (r : MdbRec) : Prop := In NUL (msg r).

(** The name as the scan reads it: the characters from the start of the
    record to the first terminator.  Where the name array holds none, the
    text runs on into the message that follows it in the structure. *)
Definition seen_name (r : MdbRec) : list ascii := until_nul (name r ++ msg r).

(** The test of the loop on the strings it reads. *)
Definition sees (key : list ascii) (r : MdbRec) : bool :=
  record_matches (seen_name r) (msg_text r) key.

(** The records the loop finds, in store order, each with its load
    position. *)
Definition Scan (store : list MdbRec) (key : list ascii) : list (nat * MdbRec) :=
  filter (fun p => sees key (snd p)) (enumerate 0 store).

(** The line formatted for the record at position [i], from the strings
    the loop reads. *)
Definition seen_line (p : nat * MdbRec) : list ascii :=
  result_line (recordCount_at (fst p)) (seen_name (snd p)) (msg_text (snd p)).

(** The same line without its newline. *)
Definition seen_body (p : nat * MdbRec) : list ascii :=
  fmt_4d (recordCount_at (fst p)) ++ lit ": {" ++ seen_name (snd p) ++
  lit "} said {" ++ msg_text (snd p) ++ lit "}".

(** The events of one reply over readable records. *)
Definition scan_events (store : list MdbRec) (sock : socket) (n : nat)
    (searchKey : list ascii) : list event :=
  let evs := attempted sock n (map seen_line (Scan store searchKey)) in
  evs ++ sentinel sock (n + List.length (sent_bufs evs)).

(** A record without a newline in its arrays. *)
Definition plain (r : MdbRec) : Prop :=
  ~ In "010"%char (name r) /\ ~ In "010"%char (msg r).

(** ** The reply as the client reads it *)

(** The bytes the peer has taken of what was handed to [send]. *)
Fixpoint delivered (evs : list event) : list ascii :=
  match evs with
  | [] => []
  | EvSend buf ret :: rest => firstn (Z.to_nat ret) buf ++ delivered rest
  | _ :: rest => delivered rest
  end.

(** A text cut at its newlines.  The last piece is what stands behind the
    last newline. *)
Fixpoint lines_of (text : list ascii) : list (list ascii) :=
  match text with
  | [] => [[]]
  | c :: rest =>
      if Ascii.eqb c "010" then [] :: lines_of rest
      else match lines_of rest with
           | l :: ls => (c :: l) :: ls
           | [] => [[c]]
           end
  end.

(** The lines of a text that are ended by a newline, without it.  A blank
    line is an empty one. *)
Definition complete_lines (text : list ascii) : list (list ascii) :=
  removelast (lines_of text).

(** Reading the ordinal back from the field in front of the colon: the
    blanks that pad it are skipped, and what follows is read as a decimal
    numeral. *)
Fixpoint skip_spaces (text : list ascii) : list ascii :=
  match text with
  | [] => []
  | c :: rest => if Ascii.eqb c " " then skip_spaces rest else text
  end.

Definition read_ordinal (field : list ascii) : option Z :=
  option_map Z.of_int
    (NilZero.int_of_string (string_of_list_ascii (skip_spaces field))).

(** A result line that shows an ordinal, a name and a message: a field of
    at least four characters that reads as the ordinal, then the two texts
    in their braces, then the newline. *)
Definition shows (line : list ascii) (ordinal : Z) (nm ms : list ascii) : Prop :=
  exists field,
    line = field ++ lit ": {" ++ nm ++ lit "} said {" ++ ms ++ lit "}" ++ ["010"%char] /\
    (4 <= List.length field)%nat /\
    read_ordinal field = Some ordinal.

(** ** Sample data *)

Module Sample.

(** A field of [size] bytes holding [text], NUL-padded. *)
Definition field (size : nat) (text : string) : list ascii :=
  lit text ++ repeat NUL (size - List.length (lit text)).

Definition record (n m : string) : MdbRec :=
  {| name := field NAME_SIZE n; msg := field MSG_SIZE m |}.

(** The same record as it lies in the file. *)
Definition block (n m : string) : list ascii :=
  field NAME_SIZE n ++ field MSG_SIZE m.

Definition store2 : list MdbRec :=
  [record "Ramya" "hi there"; record "Alex" "bye now"].

Definition file2 : list ascii :=
  block "Ramya" "hi there" ++ block "Alex" "bye now".

(** One complete block followed by two stray bytes. *)
Definition ragged : list ascii := block "Ramya" "hi there" ++ lit "Al".

(** A record whose message holds an empty line. *)
Definition gappy : MdbRec :=
  {| name := field NAME_SIZE "Eve";
     msg := lit "a" ++ ["010"%char; "010"%char] ++ lit "b" ++ repeat NUL 196 |}.

(** A record whose name fills its array and so has no terminator of its
    own. *)
Definition runon : MdbRec :=
  {| name := repeat "A"%char NAME_SIZE; msg := field MSG_SIZE "Bxyz" |}.

(** The same record as it lies in the file. *)
Definition runon_file : list ascii :=
  repeat "A"%char NAME_SIZE ++ field MSG_SIZE "Bxyz".

Definition taking_all : socket := fun _ buf => Z.of_nat (List.length buf).

(** A peer that is gone: every call of [send] returns -1. *)
Definition gone : socket := fun _ _ => -1.

Definition plenty : allocator :=
  {| malloc_ok := fun _ => true; node_ok := fun _ => true |}.

Definition start : state := {| trace := []; nsend := 0 |}.

Definition line (text : string) : list ascii := lit text ++ [LF].

(** A client that asks twice and closes, on a socket that takes nothing. *)
Definition lost : connection :=
  {| peer := "192.0.2.7";
     database := Some (fresh_stream file2 false);
     mem := plenty;
     fdopen_ok := true;
     client_bytes := line "y" ++ line "Alex";
     client_broken := false;
     sock := gone |}.

(** What that session leaves behind. *)
Definition lost_trace : list event :=
  [ EvRecv (line "y");
    EvSend (lit "   1: {Ramya} said {hi there}" ++ [LF]) (-1);
    EvPerror "send() failed";
    EvSend blank_line (-1);
    EvPerror "send() failed";
    EvRecv (line "Alex");
    EvSend (lit "   2: {Alex} said {bye now}" ++ [LF]) (-1);
    EvPerror "send() failed";
    EvSend blank_line (-1);
    EvPerror "send() failed" ].

(** A client that asks once and then fails with a read error, on a socket
    that takes everything. *)
Definition reset : connection :=
  {| peer := "192.0.2.9";
     database := Some (fresh_stream file2 false);
     mem := plenty;
     fdopen_ok := true;
     client_bytes := line "Ramya";
     client_broken := true;
     sock := taking_all |}.

End Sample.

(** ** Further vocabulary: sessions, file images, buffers *)

Definition RESULT_BUFFER_SIZE : nat := 1000.   (* char resultBuffer[1000] *)

(** The same state with an older history in front of its trace. *)
Definition prepend (older : list event) (s : state) : state :=
  {| trace := older ++ trace s; nsend := nsend s |}.

(** The same outcome with an older history in front of its trace. *)
Definition shift {A : Type} (older : list event) (r : result A) : result A :=
  match r with
  | Ok a s => Ok a (prepend older s)
  | Exit status s => Exit status (prepend older s)
  | Fault s => Fault (prepend older s)
  end.

(** The shape of a line as [fgets] stores it in a buffer of [size] bytes:
    at least one character, room left for the terminator, and a newline
    nowhere but at the end. *)
Definition line_shape (size : nat) (line : list ascii) : Prop :=
  line <> [] /\
  (List.length line < size)%nat /\
  ~ In LF (removelast line).

(** The events of a whole session that reads [lines] one after the other,
    on a socket that has seen [n] calls. *)
Fixpoint session_events (store : list MdbRec) (sock : socket) (n : nat)
    (lines : list (list ascii)) : list event :=
  match lines with
  | [] => []
  | queryLine :: more =>
      match extract_key queryLine with
      | None => [EvRecv queryLine]
      | Some searchKey =>
          let evs := reply_events store sock n searchKey in
          EvRecv queryLine :: evs ++
            session_events store sock (n + List.length (sent_bufs evs)) more
      end
  end.

(** A record as it lies in the file. *)
Definition image (r : MdbRec) : list ascii := name r ++ msg r.

(** A record whose two arrays have the sizes of the structure. *)
Definition sized (r : MdbRec) : Prop :=
  List.length (name r) = NAME_SIZE /\ List.length (msg r) = MSG_SIZE.

(** ** The companion client: [http-fetcher.c]

    A one-shot HTTP/1.0 GET: the request is built from the command line
    and sent, the status line is checked, the header lines are skipped up
    to the first blank line, and what follows is copied to a local file.
    The response is read through the same [FILE] model as above. *)

Module Fetcher.

Definition BUFFER_SIZE : nat := 4096.
Definition CR : ascii := "013"%char.
Definition SLASH : ascii := "/"%char.
Definition COLON : ascii := ":"%char.

(** A character as [unsigned char], for the comparisons. *)
Definition code (c : ascii) : Z := Z.of_N (N_of_ascii c).

(** [strncmp(s1, s2, n)].  A string is given by the characters stored in
    front of its terminator, so the end of the list reads as NUL. *)
Fixpoint strncmp (s1 s2 : list ascii) (n : nat) : Z :=
  match n with
  | O => 0
  | S n' =>
      let c1 := hd NUL s1 in
      let c2 := hd NUL s2 in
      if negb (Ascii.eqb c1 c2) then code c1 - code c2
      else if is_nul c1 then 0
      else strncmp (tl s1) (tl s2) n'
  end.

(** [strcmp(s1, s2)]. *)
Fixpoint strcmp (s1 s2 : list ascii) : Z :=
  match s1 with
  | [] => code NUL - code (hd NUL s2)
  | c1 :: rest1 =>
      let c2 := hd NUL s2 in
      if negb (Ascii.eqb c1 c2) then code c1 - code c2
      else if is_nul c1 then 0
      else strcmp rest1 (tl s2)
  end.

(** [strrchr(s, c)] for a character other than NUL: the offset of the last
    occurrence, [None] for the null pointer. *)
Fixpoint strrchr (s : list ascii) (c : ascii) : option nat :=
  match s with
  | [] => None
  | b :: rest =>
      match strrchr rest c with
      | Some k => Some (S k)
      | None => if Ascii.eqb b c then Some O else None
      end
  end.

(** [snprintf(buffer, size, ...)]: the formatted text cut to what fits in
    front of the terminator. *)
Definition snprintf (size : nat) (text : list ascii) : list ascii :=
  firstn (size - 1) text.

(** [fread(buffer, 1, count, fp)]: up to [count] bytes; fewer only when the
    stream runs dry. *)
Definition fread_bytes (count : nat) (fp : FILE) : list ascii * FILE :=
  if (count <=? List.length (pending fp))%nat
  then (firstn count (pending fp), advance fp (skipn count (pending fp)))
  else (pending fp, run_dry fp).

(** Everything outside the program. *)
Record network : Type := mkNetwork {
  resolves : bool;                       (* gethostbyname(hostname) != NULL *)
  socket_made : bool;                    (* socket(...) >= 0 *)
  connects : bool;                       (* connect(...) >= 0 *)
  wire : list ascii -> Z;                (* what send returns for the request *)
  stream_ok : bool;                      (* fdopen(clientSock, "r") != NULL *)
  response : list ascii;                 (* what the server writes before it stops *)
  response_fails : bool;                 (* it stops with a read error rather than a close *)
  creates : bool;                        (* fopen(outputFilename, "wb") != NULL *)
  fwrite_ret : nat -> list ascii -> nat  (* what the k-th fwrite returns *)
}.

Inductive note : Type :=
| Perror (message : string)      (* perror(message) *)
| Stderr (text : list ascii).    (* fprintf(stderr, ...) *)

Record progress : Type := mkProgress {
  notes : list note;                          (* the error stream, oldest first *)
  request : option (list ascii);              (* the bytes handed to send *)
  saved : option (list ascii * list ascii)    (* the local file: name and contents *)
}.

Definition start : progress := {| notes := []; request := None; saved := None |}.

Definition complain (n : note) (p : progress) : progress :=
  {| notes := notes p ++ [n]; request := request p; saved := saved p |}.

(** [static void error_exit(const char *message)]: [perror], [exit(1)]. *)
Definition error_exit (message : string) (p : progress) : Z * progress :=
  (1, complain (Perror message) p).

(** [static void usage()]: two lines on the error stream, [exit(1)]. *)
Definition usage (p : progress) : Z * progress :=
  (1, complain (Stderr (lit "Example: http-fetcher www.example.com 80 /index.html" ++ [LF]))
        (complain (Stderr (lit "Usage: http-fetcher <hostname> <port> <path>" ++ [LF])) p)).

(** [[
      const char *slash = strrchr(urlPath, '/');
      if (!slash) usage();
      const char *outputFilename = slash + 1;
      if (!*outputFilename) outputFilename = "index.html";
    ]]
    [None] is the call of [usage]. *)
Definition output_filename (urlPath : list ascii) : option (list ascii) :=
  match strrchr urlPath SLASH with
  | None => None
  | Some slash =>
      match skipn (S slash) urlPath with
      | [] => Some (lit "index.html")
      | outputFilename => Some outputFilename
      end
  end.

(** The text of the format
    ["GET %s HTTP/1.0\r\nHost: %s:%s\r\n\r\n"]. *)
Definition request_text (urlPath hostname portStr : list ascii) : list ascii :=
  lit "GET " ++ urlPath ++ lit " HTTP/1.0" ++ [CR; LF] ++
  lit "Host: " ++ hostname ++ [COLON] ++ portStr ++ [CR; LF; CR; LF].

(** The test that ends the headers. *)
Definition ends_headers (buffer : list ascii) : bool :=
  (strcmp buffer [CR; LF] =? 0) || (strcmp buffer [LF] =? 0).

(** [[
      while (fgets(buffer, sizeof(buffer), socketStream)) {
          if (strcmp(buffer, "\r\n") == 0 || strcmp(buffer, "\n") == 0) break;
      }
    ]] *)
Equations? skip_headers (socketStream : FILE) : FILE
  by wf (List.length (pending socketStream)) lt :=
  skip_headers socketStream with inspect (fgets BUFFER_SIZE socketStream) => {
    | exist _ (None, fp') _ => fp'
    | exist _ (Some buffer, fp') E =>
        if ends_headers buffer then fp' else skip_headers fp' }.
Proof.
  (* a line was delivered: it holds at least one byte of the stream *)
  assert (Hread : forall room bytes line rest at_end,
             read_line room bytes = (line, rest, at_end) ->
             bytes = line ++ rest /\ (at_end = false -> room <> O -> line <> [])).
  { clear. induction room as [| room IH]; intros bytes line rest at_end H; cbn in H.
    - inversion H; subst. split; [reflexivity | congruence].
    - destruct bytes as [| c bs]; [inversion H; subst; split; [reflexivity | discriminate] |].
      destruct (Ascii.eqb c LF);
        [inversion H; subst; split; [reflexivity | intros _ _; discriminate] |].
      destruct (read_line room bs) as [[l r] e] eqn:E.
      inversion H; subst. destruct (IH _ _ _ _ E) as (-> & _).
      split; [reflexivity | intros _ _; discriminate]. }
  unfold fgets in E.
  destruct (read_line (BUFFER_SIZE - 1) (pending socketStream))
    as [[l r] e] eqn:Er.
  destruct (Hread _ _ _ _ _ Er) as (-> & Hline).
  rewrite length_app. destruct e.
  - destruct (broken socketStream); [discriminate |].
    destruct l as [| c l]; [discriminate |].
    apply (f_equal snd) in E. cbn [snd] in E. subst fp'. cbn. lia.
  - apply (f_equal snd) in E. cbn [snd] in E. subst fp'.
    unfold advance; cbn [pending].
    assert (l <> []) by (apply Hline; [reflexivity | discriminate]).
    destruct l; [congruence | cbn; lia].
Qed.

(** [[
      while ((bytesRead = fread(buffer, 1, sizeof(buffer), socketStream)) > 0) {
          if (fwrite(buffer, 1, bytesRead, outFile) != bytesRead)
              error_exit("fwrite failed");
      }
    ]]
    The result tells whether every write was complete, what the file holds,
    and the stream behind the loop; [k] counts the calls of [fwrite]. *)
Equations? save_body (net : network) (socketStream : FILE)
    (contents : list ascii) (k : nat)
  : bool * list ascii * FILE
  by wf (List.length (pending socketStream)) lt :=
  save_body net socketStream contents k
    with inspect (fread_bytes BUFFER_SIZE socketStream) => {
    | exist _ ([], fp') _ => (true, contents, fp')
    | exist _ (c :: chunk, fp') E =>
        let bytesWritten := fwrite_ret net k (c :: chunk) in
        if negb (bytesWritten =? List.length (c :: chunk))%nat
        then (false, contents ++ firstn bytesWritten (c :: chunk), fp')
        else save_body net fp' (contents ++ c :: chunk) (S k) }.
Proof.
  (* a chunk was read: the stream is shorter by its bytes *)
  unfold fread_bytes in E.
  destruct (Nat.leb_spec BUFFER_SIZE (List.length (pending socketStream))) as [Hle | Hlt].
  - apply (f_equal snd) in E. cbn [snd] in E. subst fp'.
    unfold advance; cbn [pending]. rewrite length_skipn.
    unfold BUFFER_SIZE in *. lia.
  - pose proof (f_equal fst E) as Hc. apply (f_equal snd) in E.
    cbn [fst snd] in *. subst fp'. cbn [run_dry pending]. rewrite Hc. cbn. lia.
Qed.

(** [int main(int argc, char **argv)] of the client; the first component
    is the exit status. *)
Definition main (argv : list (list ascii)) (net : network) : Z * progress :=
  match argv with
  | [_; arg1; arg2; arg3] =>
      let hostname := until_nul arg1 in
      let portStr := until_nul arg2 in
      let urlPath := until_nul arg3 in
      match output_filename urlPath with
      | None => usage start
      | Some outputFilename =>
          if negb (resolves net) then error_exit "gethostbyname failed" start
          else if negb (socket_made net) then error_exit "socket failed" start
          else if negb (connects net) then error_exit "connect failed" start
          else
            let buffer := snprintf BUFFER_SIZE (request_text urlPath hostname portStr) in
            let sent := until_nul buffer in
            let p1 := {| notes := []; request := Some sent; saved := None |} in
            if negb (wire net sent =? Z.of_nat (strlen buffer))
            then error_exit "send failed" p1
            else if negb (stream_ok net) then error_exit "fdopen failed" p1
            else
              match fgets BUFFER_SIZE
                      (fresh_stream (response net) (response_fails net)) with
              | (None, socketStream) =>
                  if ferror socketStream
                  then error_exit "I/O error while reading response" p1
                  else (1, complain
                             (Stderr (lit "Server closed connection unexpectedly" ++ [LF]))
                             p1)
              | (Some buffer, socketStream) =>
                  if negb (strncmp buffer (lit "HTTP/1.0 ") 9 =? 0) &&
                     negb (strncmp buffer (lit "HTTP/1.1 ") 9 =? 0)
                  then (1, complain
                             (Stderr (lit "Unrecognized protocol response: "
                                        ++ until_nul buffer ++ [LF]))
                             p1)
                  else if negb (strncmp (skipn 9 buffer) (lit "200") 3 =? 0)
                  then (1, complain (Stderr (until_nul buffer)) p1)
                  else
                    let socketStream := skip_headers socketStream in
                    if negb (creates net) then error_exit "fopen failed" p1
                    else
                      let '(written, contents, socketStream) :=
                        save_body net socketStream [] 0 in
                      let p2 := {| notes := notes p1;
                                   request := request p1;
                                   saved := Some (outputFilename, contents) |} in
                      if negb written then error_exit "fwrite failed" p2
                      else if ferror socketStream then error_exit "fread failed" p2
                      else (0, p2)
              end
      end
  | _ => usage start
  end.

(** A line as the server of a well-formed response writes it: ended by its
    only newline and short enough for the buffer. *)
Definition complete_line (l : list ascii) : Prop :=
  exists text, l = text ++ [LF] /\ ~ In LF text /\ (List.length l < BUFFER_SIZE)%nat.

(** A header line: complete and not the blank line. *)
Definition header_line (l : list ascii) : Prop :=
  complete_line l /\ l <> [LF] /\ l <> [CR; LF].

(** Surroundings in which every call outside the program succeeds. *)
Definition obliging (net : network) : Prop :=
  resolves net = true /\ socket_made net = true /\ connects net = true /\
  stream_ok net = true /\ creates net = true /\
  (forall buf, wire net buf = Z.of_nat (List.length buf)) /\
  (forall k buf, fwrite_ret net k buf = List.length buf).

(** A server that answers one status line, two header lines, the blank
    line and a body, and then closes (or fails). *)
Definition answer (body : list ascii) (fails : bool) : network :=
  {| resolves := true; socket_made := true; connects := true;
     wire := fun buf => Z.of_nat (List.length buf);
     stream_ok := true;
     response := lit "HTTP/1.0 200 OK" ++ [CR; LF] ++
                 lit "Content-Type: text/plain" ++ [CR; LF] ++
                 lit "Server: demo" ++ [LF] ++
                 [CR; LF] ++ body;
     response_fails := fails;
     creates := true;
     fwrite_ret := fun _ buf => List.length buf |}.

Definition argv_example : list (list ascii) :=
  [lit "http-fetcher"; lit "www.example.com"; lit "80"; lit "/docs/index.html"].

End Fetcher.

(** * Properties *)

(** ** C strings *)

Section CStrings.

Lemma is_nul_true c : is_nul c = true <-> c = NUL.
Proof. unfold is_nul. apply Ascii.eqb_eq. Qed.

Lemma is_nul_false c : is_nul c = false <-> c <> NUL.
Proof. unfold is_nul. apply Ascii.eqb_neq. Qed.

Lemma until_nul_clean buf : ~ In NUL (until_nul buf).
Proof.
  induction buf as [| c buf IH]; cbn; [tauto |].
  destruct (is_nul c) eqn:E; cbn; [tauto |].
  apply is_nul_false in E. intros [H | H]; [congruence | tauto].
Qed.

Lemma until_nul_app text rest :
  ~ In NUL text -> until_nul (text ++ NUL :: rest) = text.
Proof.
  induction text as [| c text IH]; cbn; intros H; [reflexivity |].
  destruct (is_nul c) eqn:E.
  - apply is_nul_true in E. subst. tauto.
  - f_equal. apply IH. tauto.
Qed.

Lemma until_nul_app_l field rest :
  In NUL field -> until_nul (field ++ rest) = until_nul field.
Proof.
  induction field as [| c field IH]; cbn; intros H; [tauto |].
  destruct (is_nul c) eqn:E; [reflexivity |].
  apply is_nul_false in E. f_equal. apply IH.
  destruct H; [congruence | assumption].
Qed.

(** A scan that meets a terminator inside the object yields the text. *)
Lemma c_str_terminated mem : In NUL mem -> c_str mem = Some (until_nul mem).
Proof.
  induction mem as [| c mem IH]; cbn; intros H; [tauto |].
  destruct (is_nul c) eqn:E; [reflexivity |].
  apply is_nul_false in E. rewrite IH; [reflexivity |].
  destruct H; [congruence | assumption].
Qed.

(** A scan that meets none leaves the object. *)
Lemma c_str_overrun mem : ~ In NUL mem -> c_str mem = None.
Proof.
  induction mem as [| c mem IH]; cbn; intros H; [reflexivity |].
  destruct (is_nul c) eqn:E.
  - apply is_nul_true in E. subst. tauto.
  - rewrite IH; tauto.
Qed.

Lemma starts_with_spec needle hay :
  starts_with needle hay = true <-> exists after, hay = needle ++ after.
Proof.
  revert hay. induction needle as [| a needle IH]; intros hay; cbn.
  - split; [intros _; exists hay; reflexivity | reflexivity].
  - destruct hay as [| b hay].
    + split; [discriminate | intros [after H]; discriminate].
    + rewrite andb_true_iff, Ascii.eqb_eq, IH. split.
      * intros [-> [after ->]]. exists after. reflexivity.
      * intros [after H]. inversion H; subst. split; [reflexivity | eauto].
Qed.

(** [strstr] finds the needle exactly when it occurs. *)
Lemma strstr_spec hay needle :
  non_null (strstr hay needle) = true <-> substring needle hay.
Proof.
  unfold substring. induction hay as [| b hay IH].
  - cbn. destruct (starts_with needle []) eqn:E; cbn.
    + apply starts_with_spec in E. destruct E as [after E].
      split; [intros _; exists [], after; exact E | reflexivity].
    + split; [discriminate |]. intros (before & after & H).
      destruct before; cbn in H.
      * assert (starts_with needle [] = true)
          by (apply starts_with_spec; eauto). congruence.
      * discriminate.
  - cbn [strstr]. destruct (starts_with needle (b :: hay)) eqn:E.
    + apply starts_with_spec in E. destruct E as [after E].
      split; [intros _; exists [], after; exact E | reflexivity].
    + destruct (strstr hay needle) as [k |] eqn:Ek; cbn in *.
      * split; [intros _ | reflexivity].
        destruct (proj1 IH eq_refl) as (before & after & ->).
        exists (b :: before), after. reflexivity.
      * split; [discriminate |]. intros (before & after & H).
        destruct before as [| b' before]; cbn in H.
        -- assert (starts_with needle (b :: hay) = true)
             by (apply starts_with_spec; eauto). congruence.
        -- inversion H; subst.
           assert (false = true) by (apply IH; eauto). discriminate.
Qed.

(** The empty needle is found at the start of every string. *)
Lemma strstr_empty hay : strstr hay [] = Some O.
Proof. destruct hay; reflexivity. Qed.

End CStrings.

(** ** The search key *)

Section SearchKey.

Lemma until_nul_length buf : (List.length (until_nul buf) <= List.length buf)%nat.
Proof.
  induction buf as [| c buf IH]; cbn; [lia |].
  destruct (is_nul c); cbn; lia.
Qed.

(** [strncpy] stores the text of the first [n] characters and pads. *)
Lemma strncpy_text n src :
  strncpy n src =
  until_nul (firstn n src) ++
  repeat NUL (n - List.length (until_nul (firstn n src))).
Proof.
  revert src. induction n as [| n IH]; intros src; [reflexivity |].
  destruct src as [| c rest]; [reflexivity |].
  cbn [strncpy firstn until_nul]. destruct (is_nul c); [reflexivity |].
  rewrite IH at 1. reflexivity.
Qed.

Lemma searchKey_buffer_shape queryLine :
  let text := until_nul (firstn MAX_KEY_LENGTH queryLine) in
  searchKey_buffer queryLine =
  text ++ NUL :: repeat NUL (MAX_KEY_LENGTH - List.length text).
Proof.
  cbv zeta. unfold searchKey_buffer. rewrite strncpy_text, <- app_assoc.
  f_equal. symmetry. apply repeat_cons.
Qed.

Lemma key_text_short queryLine :
  (List.length (until_nul (firstn MAX_KEY_LENGTH queryLine)) <= MAX_KEY_LENGTH)%nat.
Proof.
  etransitivity; [apply until_nul_length |]. apply firstn_le_length.
Qed.

Lemma store_at_app front old back c :
  store_at (front ++ old :: back) (List.length front) c = front ++ c :: back.
Proof. induction front as [| b front IH]; cbn; [reflexivity | now rewrite IH]. Qed.

Lemma chomp_snoc front c :
  chomp (front ++ [c]) = if Ascii.eqb c LF then front else front ++ [c].
Proof. unfold chomp. rewrite last_last, removelast_last. reflexivity. Qed.

(** The trim on a buffer that holds a non-empty text: the index is the
    last character of the text, and the text loses a final newline. *)
Lemma trim_newline_text text pad :
  ~ In NUL text -> text <> [] -> Z.of_nat (List.length text) < SIZE_MODULUS ->
  exists buf,
    trim_newline (text ++ NUL :: pad) = Some buf /\ until_nul buf = chomp text.
Proof.
  intros Hclean Hne Hsmall.
  destruct (exists_last Hne) as (front & c & ->).
  assert (Hfront : ~ In NUL front)
    by (intros H; apply Hclean, in_or_app; now left).
  unfold trim_newline, lastChar, strlen, wrap_size.
  rewrite until_nul_app by assumption.
  rewrite length_app in *. cbn [List.length] in *.
  rewrite Z.mod_small by lia.
  replace (Z.of_nat (List.length front + 1) - 1) with (Z.of_nat (List.length front)) by lia.
  unfold index. rewrite !length_app. cbn [List.length].
  replace ((0 <=? Z.of_nat (List.length front)) &&
           (Z.of_nat (List.length front) <?
            Z.of_nat (List.length front + 1 + S (List.length pad)))) with true
    by (symmetry; apply andb_true_iff; split; [apply Z.leb_le | apply Z.ltb_lt]; lia).
  rewrite Nat2Z.id, <- app_assoc. cbn [app].
  rewrite nth_error_app2 by lia. rewrite Nat.sub_diag. cbn [nth_error].
  rewrite chomp_snoc. destruct (Ascii.eqb c LF).
  - eexists; split; [reflexivity |].
    rewrite store_at_app. apply until_nul_app. assumption.
  - eexists; split; [reflexivity |].
    change (front ++ c :: NUL :: pad) with (front ++ [c] ++ NUL :: pad).
    rewrite app_assoc. apply until_nul_app. assumption.
Qed.

(** The source's extraction agrees with the specification's wording. *)
Lemma extract_key_spec queryLine : extract_key queryLine = key_of_line queryLine.
Proof.
  unfold extract_key, key_of_line. rewrite searchKey_buffer_shape. cbv zeta.
  pose proof (key_text_short queryLine) as Hshort.
  pose proof (until_nul_clean (firstn MAX_KEY_LENGTH queryLine)) as Hclean.
  destruct (until_nul (firstn MAX_KEY_LENGTH queryLine)) as [| c text] eqn:E.
  - reflexivity.
  - destruct (@trim_newline_text (c :: text)
                (repeat NUL (MAX_KEY_LENGTH - List.length (c :: text))))
      as (buf & -> & ->); try assumption; [discriminate | | reflexivity].
    unfold MAX_KEY_LENGTH, SIZE_MODULUS in *. lia.
Qed.

Lemma key_of_line_first_five queryLine :
  key_of_line (firstn MAX_KEY_LENGTH queryLine) = key_of_line queryLine.
Proof.
  unfold key_of_line. rewrite firstn_firstn, Nat.min_id. reflexivity.
Qed.

Lemma chomp_prefix text : exists tail, text = chomp text ++ tail.
Proof.
  unfold chomp. destruct (Ascii.eqb (last text NUL) LF).
  - destruct text as [| c text]; [exists []; reflexivity |].
    exists [last (c :: text) NUL]. apply app_removelast_last. discriminate.
  - exists []. symmetry. apply app_nil_r.
Qed.

Lemma until_nul_prefix buf : exists tail, buf = until_nul buf ++ tail.
Proof.
  induction buf as [| c buf [tail IH]]; cbn; [exists []; reflexivity |].
  destruct (is_nul c); [exists (c :: buf); reflexivity |].
  exists tail. cbn. congruence.
Qed.

Lemma chomp_length text : (List.length (chomp text) <= List.length text)%nat.
Proof.
  destruct (chomp_prefix text) as [tail H]. rewrite H at 2.
  rewrite length_app. lia.
Qed.

End SearchKey.

(** ** The search and the reply *)

Section Reply.

Lemma well_formed_strings r :
  well_formed r ->
  name_str r = Some (name_text r) /\ msg_str r = Some (msg_text r).
Proof.
  intros [Hname Hmsg]. unfold name_str, msg_str, name_text, msg_text. split.
  - rewrite c_str_terminated by (apply in_or_app; now left).
    f_equal. apply until_nul_app_l. assumption.
  - apply c_str_terminated. assumption.
Qed.

(** A record whose message has no terminator sends the scan out of the
    record, whatever its name holds. *)
Lemma search_loop_overrun sock searchKey r next recordCount s :
  ~ In NUL (msg r) ->
  search_loop sock searchKey (r :: next) recordCount s = Fault s.
Proof.
  intros H. cbn [search_loop]. unfold msg_str. rewrite (c_str_overrun _ H).
  destruct (name_str r); reflexivity.
Qed.

Lemma enumerate_cons from r store :
  enumerate from (r :: store) = (from, r) :: enumerate (S from) store.
Proof. reflexivity. Qed.

Lemma sent_bufs_app evs evs' : sent_bufs (evs ++ evs') = sent_bufs evs ++ sent_bufs evs'.
Proof.
  induction evs as [| e evs IH]; [reflexivity |].
  destruct e; cbn; rewrite IH; reflexivity.
Qed.

Lemma state_eq tr tr' n n' : tr = tr' -> n = n' -> mkState tr n = mkState tr' n'.
Proof. congruence. Qed.

(** The loop sends the lines of the matching records, in store order,
    until a call of [send] falls short. *)
Lemma search_loop_events sock searchKey nodes : forall from s,
  Forall well_formed nodes ->
  let lines := map line_of
                 (filter (fun p => matches searchKey (snd p)) (enumerate from nodes)) in
  let evs := attempted sock (nsend s) lines in
  search_loop sock searchKey nodes (recordCount_at from) s =
  Ok tt {| trace := trace s ++ evs;
           nsend := nsend s + List.length (sent_bufs evs) |}.
Proof.
  induction nodes as [| r nodes IH]; intros from s Hwf; cbv zeta.
  - cbn. f_equal. destruct s; cbn. apply state_eq; [| lia].
    symmetry; apply app_nil_r.
  - inversion Hwf as [| ? ? Hr Hnodes]; subst.
    destruct (well_formed_strings Hr) as [Hn Hm].
    cbn [search_loop]. rewrite Hn, Hm.
    rewrite enumerate_cons. cbn [filter snd].
    change (record_matches (name_text r) (msg_text r) searchKey)
      with (matches searchKey r).
    change (wrap_int (recordCount_at from + 1)) with (recordCount_at (S from)).
    destruct (matches searchKey r).
    + cbn [map attempted send].
      change (result_line (recordCount_at from) (name_text r) (msg_text r))
        with (line_of (from, r)).
      destruct (negb (sock (nsend s) (line_of (from, r)) =?
                      Z.of_nat (List.length (line_of (from, r))))).
      * f_equal. unfold perror, log. cbn [trace nsend sent_bufs List.length].
        apply state_eq; [| lia]. rewrite <- app_assoc. reflexivity.
      * rewrite IH by assumption. f_equal. cbn [trace nsend sent_bufs List.length].
        apply state_eq; [| lia]. rewrite <- app_assoc. reflexivity.
    + apply IH. assumption.
Qed.

Lemma respond_events store sock queryLine searchKey s :
  Forall well_formed store ->
  extract_key queryLine = Some searchKey ->
  exists s',
    respond store sock queryLine s = Ok tt s' /\
    trace s' = trace s ++ reply_events store sock (nsend s) searchKey.
Proof.
  intros Hwf Hkey. unfold respond. rewrite Hkey.
  change 1 with (recordCount_at 0).
  rewrite search_loop_events by assumption. cbv zeta.
  fold (Search store searchKey). unfold reply_events, sentinel.
  cbn [send trace nsend blank_line List.length Z.of_nat Pos.of_succ_nat].
  set (evs := attempted sock (nsend s) (map line_of (Search store searchKey))).
  destruct (negb (sock (nsend s + List.length (sent_bufs evs))%nat blank_line =? 1)).
  - eexists; split; [reflexivity |]. cbn. now rewrite <- !app_assoc.
  - eexists; split; [reflexivity |]. cbn. now rewrite <- !app_assoc.
Qed.

(** What reaches [send] is an initial part of what was to be sent. *)
Lemma attempted_prefix sock bufs : forall n,
  exists k, sent_bufs (attempted sock n bufs) = firstn k bufs.
Proof.
  induction bufs as [| buf more IH]; intros n; [exists O; reflexivity |].
  cbn [attempted sent_bufs].
  destruct (negb (sock n buf =? Z.of_nat (List.length buf))).
  - exists 1%nat. reflexivity.
  - destruct (IH (S n)) as [k Hk]. exists (S k). cbn. now rewrite Hk.
Qed.

(** A peer that takes everything is sent everything. *)
Lemma attempted_all sock bufs : forall n,
  accepts_all sock -> sent_bufs (attempted sock n bufs) = bufs.
Proof.
  induction bufs as [| buf more IH]; intros n Hall; [reflexivity |].
  cbn [attempted sent_bufs]. rewrite Hall, Z.eqb_refl. cbn [negb].
  now rewrite IH.
Qed.

(** Behind a call that fell short there is the diagnostic and nothing else. *)
Lemma attempted_failure sock bufs : forall n before buf ret behind,
  attempted sock n bufs = before ++ EvSend buf ret :: behind ->
  ret <> Z.of_nat (List.length buf) ->
  behind = [EvPerror "send() failed"].
Proof.
  induction bufs as [| b more IH]; intros n before buf ret behind H Hfail.
  - destruct before; discriminate.
  - cbn [attempted] in H. destruct before as [| e before]; cbn in H.
    + injection H as -> Hret Hbehind. rewrite Hret in Hbehind.
      apply Z.eqb_neq in Hfail. rewrite Hfail in Hbehind. now symmetry.
    + injection H as _ H.
      destruct (negb (sock n b =? Z.of_nat (List.length b))).
      * destruct before as [| ? [| ? ?]]; discriminate.
      * eapply IH; eassumption.
Qed.

Lemma sentinel_sent sock n : sent_bufs (sentinel sock n) = [blank_line].
Proof. unfold sentinel. destruct (negb _); reflexivity. Qed.

(** A result line is never the blank line. *)
Lemma line_of_not_blank p : line_of p <> blank_line.
Proof.
  unfold line_of, result_line, blank_line. intros H.
  apply (f_equal (@List.length ascii)) in H.
  rewrite !length_app in H. cbn in H. lia.
Qed.

(** Membership in the enumeration is the lookup by position. *)
Lemma in_enumerate store : forall from i r,
  In (i, r) (enumerate from store) <->
  (from <= i)%nat /\ nth_error store (i - from) = Some r.
Proof.
  induction store as [| r0 store IH]; intros from i r.
  - cbn. split; [tauto |]. intros [_ H]. destruct (i - from)%nat; discriminate.
  - rewrite enumerate_cons. cbn [In]. rewrite IH. split.
    + intros [H | [Hle H]].
      * injection H as <- <-. rewrite Nat.sub_diag. split; [lia | reflexivity].
      * split; [lia |]. replace (i - from)%nat with (S (i - S from)) by lia. exact H.
    + intros [Hle H]. destruct (Nat.eq_dec i from) as [-> | Hne].
      * left. rewrite Nat.sub_diag in H. cbn in H. congruence.
      * right. split; [lia |].
        replace (i - from)%nat with (S (i - S from)) in H by lia. exact H.
Qed.

Lemma matches_spec key r :
  matches key r = true <->
  substring key (name_text r) \/ substring key (msg_text r).
Proof.
  unfold matches, record_matches. rewrite orb_true_iff, !strstr_spec. tauto.
Qed.

(** The records found are exactly the records that match, each at its
    load position. *)
Lemma in_Search store key i r :
  In (i, r) (Search store key) <->
  nth_error store i = Some r /\
  (substring key (name_text r) \/ substring key (msg_text r)).
Proof.
  unfold Search. rewrite filter_In, in_enumerate, Nat.sub_0_r. cbn [snd].
  rewrite matches_spec. intuition lia.
Qed.

Lemma wrap_int_small z : - 2 ^ 31 <= z <= INT_MAX -> wrap_int z = z.
Proof.
  unfold wrap_int, INT_MAX. intros H. rewrite Z.mod_small; lia.
Qed.

(** While the list is no longer than [INT_MAX], the counter is the
    1-based position. *)
Lemma recordCount_at_position i :
  Z.of_nat i + 1 <= INT_MAX -> recordCount_at i = Z.of_nat i + 1.
Proof.
  induction i as [| i IH]; intros H; [reflexivity |].
  change (recordCount_at (S i)) with (wrap_int (recordCount_at i + 1)).
  rewrite IH by lia. rewrite wrap_int_small; unfold INT_MAX in *; lia.
Qed.

Lemma in_firstn {A : Type} (x : A) k (l : list A) : In x (firstn k l) -> In x l.
Proof.
  intros H. rewrite <- (firstn_skipn k l). apply in_or_app. now left.
Qed.


End Reply.

(** ** The loader *)

Section Loader.

Lemma load_loop_step mem filePointer recordList node s :
  load_loop mem filePointer recordList node s =
  match fread_record filePointer with
  | (None, fp') => Ok (recordList, fp') s
  | (Some record, fp') =>
      if negb (malloc_ok mem (List.length recordList))
      then terminate "Memory allocation failed" s
      else match addAfter (node_ok mem (List.length recordList)) recordList
                          node (MdbRec_of_block record) with
           | None => terminate "Failed to add record to list" s
           | Some (recordList', node') =>
               load_loop mem fp' recordList' (Some node') s
           end
  end.
Proof.
  funelim (load_loop mem filePointer recordList node s);
    match goal with H : fread_record _ = _ |- _ => rewrite H end; reflexivity.
Qed.

(** The node added last is the last of the list, so the next record
    goes to the end. *)
Lemma addAfter_last recordList data :
  addAfter true recordList (last_node recordList) data =
  Some (recordList ++ [data], List.length recordList).
Proof.
  unfold addAfter, last_node. destruct recordList as [| r rest]; [reflexivity |].
  cbn [List.length]. rewrite firstn_all2, skipn_all2 by (cbn [List.length]; lia).
  reflexivity.
Qed.

Lemma last_node_app recordList data :
  last_node (recordList ++ [data]) = Some (List.length recordList).
Proof.
  unfold last_node. destruct recordList as [| r rest]; [reflexivity |].
  cbn [app List.length]. rewrite length_app. cbn [List.length].
  f_equal. lia.
Qed.

Lemma records_of_length bytes :
  List.length (records_of bytes) = (List.length bytes / RECORD_SIZE)%nat.
Proof. unfold records_of. now rewrite length_map, length_seq. Qed.

Lemma records_of_nth bytes i :
  (i < List.length bytes / RECORD_SIZE)%nat ->
  nth_error (records_of bytes) i = Some (MdbRec_of_block (block_at bytes i)).
Proof.
  intros Hi. unfold records_of. rewrite nth_error_map, nth_error_seq.
  apply Nat.ltb_lt in Hi. rewrite Hi. reflexivity.
Qed.

Lemma records_of_short bytes :
  (List.length bytes < RECORD_SIZE)%nat -> records_of bytes = [].
Proof.
  intros H. unfold records_of. rewrite Nat.div_small by assumption. reflexivity.
Qed.

Lemma records_of_block bytes :
  (RECORD_SIZE <= List.length bytes)%nat ->
  records_of bytes =
  MdbRec_of_block (firstn RECORD_SIZE bytes) :: records_of (skipn RECORD_SIZE bytes).
Proof.
  intros H. unfold records_of. rewrite length_skipn.
  assert (Hdiv : (List.length bytes / RECORD_SIZE =
                  S ((List.length bytes - RECORD_SIZE) / RECORD_SIZE))%nat).
  { replace (List.length bytes) with
      ((List.length bytes - RECORD_SIZE) + 1 * RECORD_SIZE)%nat at 1 by lia.
    rewrite Nat.div_add by discriminate. lia. }
  rewrite Hdiv. cbn [seq map].
  replace (block_at bytes 0) with (firstn RECORD_SIZE bytes)
    by (unfold block_at; now rewrite Nat.mul_0_r).
  apply f_equal.
  rewrite <- seq_shift, map_map. apply map_ext. intros i.
  unfold block_at. rewrite skipn_skipn, Nat.mul_succ_r. reflexivity.
Qed.

(** With memory at hand the loop turns every complete block into a record
    and stops at the first read that does not fill one. *)
Lemma load_loop_complete mem :
  never_fails mem ->
  forall n filePointer recordList s,
    (List.length (pending filePointer) / RECORD_SIZE)%nat = n ->
    exists fp',
      load_loop mem filePointer recordList (last_node recordList) s =
        Ok (recordList ++ records_of (pending filePointer), fp') s /\
      pending fp' = [] /\
      err_ind fp' = err_ind filePointer || broken filePointer.
Proof.
  intros Hmem. induction n as [| n IH]; intros fp acc s Hn;
    rewrite load_loop_step; unfold fread_record.
  - destruct (Nat.leb_spec RECORD_SIZE (List.length (pending fp))) as [Hle | Hlt].
    + exfalso. pose proof (Nat.div_le_lower_bound (List.length (pending fp)) RECORD_SIZE 1).
      unfold RECORD_SIZE in *. lia.
    + exists (run_dry fp). rewrite records_of_short, app_nil_r by assumption.
      repeat split.
  - destruct (Nat.leb_spec RECORD_SIZE (List.length (pending fp))) as [Hle | Hlt].
    + destruct (Hmem (List.length acc)) as [-> ->]. cbn [negb].
      rewrite addAfter_last, <- last_node_app with (data :=
        MdbRec_of_block (firstn RECORD_SIZE (pending fp))).
      destruct (IH (advance fp (skipn RECORD_SIZE (pending fp)))
                   (acc ++ [MdbRec_of_block (firstn RECORD_SIZE (pending fp))]) s)
        as (fp' & Hrun & Hdry & Herr).
      * unfold advance; cbn [pending]. rewrite length_skipn.
        pose proof (records_of_length (pending fp)) as Hlen.
        rewrite records_of_block in Hlen by assumption.
        cbn [List.length] in Hlen. rewrite records_of_length, length_skipn in Hlen.
        lia.
      * exists fp'. rewrite Hrun. unfold advance in *; cbn [pending err_ind broken] in *.
        rewrite (records_of_block (pending fp)) by assumption.
        rewrite <- app_assoc. repeat split; assumption.
    + rewrite Nat.div_small in Hn by assumption. discriminate.
Qed.

(** The loader on a file that opens and reads without error. *)
Lemma load_database_complete mem bytes s :
  never_fails mem ->
  exists fp',
    load_database (Some (fresh_stream bytes false)) mem s =
      Ok (records_of bytes, fp') s /\ pending fp' = [].
Proof.
  intros Hmem. unfold load_database.
  destruct (@load_loop_complete mem Hmem _ (fresh_stream bytes false) [] s eq_refl)
    as (fp' & Hrun & Hdry & Herr).
  change (last_node []) with (@None nat) in Hrun. rewrite Hrun.
  cbn [fresh_stream pending err_ind broken app orb] in *.
  unfold ferror. rewrite Herr. exists fp'. split; [reflexivity | assumption].
Qed.

End Loader.

(** ** The session *)

Section Session.

Lemma query_loop_step recordList sock clientInput s :
  query_loop recordList sock clientInput s =
  match fgets QUERY_LINE_SIZE clientInput with
  | (None, fp') => Ok fp' s
  | (Some queryLine, fp') =>
      match respond recordList sock queryLine (log (EvRecv queryLine) s) with
      | Ok _ s' => query_loop recordList sock fp' s'
      | Exit status s' => Exit status s'
      | Fault s' => Fault s'
      end
  end.
Proof.
  funelim (query_loop recordList sock clientInput s);
    repeat match goal with
           | H : fgets _ _ = _ |- _ => rewrite H
           | H : respond _ _ _ _ = _ |- _ => rewrite H
           end; reflexivity.
Qed.

Lemma read_line_accounts room bytes line rest at_end :
  read_line room bytes = (line, rest, at_end) ->
  bytes = line ++ rest /\
  (at_end = true -> rest = []) /\
  (at_end = false -> room <> O -> line <> []).
Proof.
  revert bytes line rest at_end.
  induction room as [| room IH]; intros bytes line rest at_end H; cbn in H.
  - inversion H; subst. repeat split; [discriminate | congruence].
  - destruct bytes as [| c bs].
    + inversion H; subst. repeat split; discriminate.
    + destruct (Ascii.eqb c LF).
      * inversion H; subst. repeat split; [discriminate | intros _ _; discriminate].
      * destruct (read_line room bs) as [[l r] e] eqn:E.
        inversion H; subst. destruct (IH _ _ _ _ E) as (-> & Hend & _).
        repeat split; [exact Hend | intros _ _; discriminate].
Qed.

Lemma fgets_shrinks fp line fp' :
  fgets QUERY_LINE_SIZE fp = (Some line, fp') ->
  (List.length (pending fp') < List.length (pending fp))%nat.
Proof.
  unfold fgets.
  destruct (read_line (QUERY_LINE_SIZE - 1) (pending fp)) as [[l r] e] eqn:E.
  destruct (read_line_accounts _ _ E) as (Hsplit & Hend & Hline).
  rewrite Hsplit, length_app.
  destruct e.
  - destruct (broken fp); [discriminate |].
    destruct l as [| c l]; [discriminate |].
    intros H. apply (f_equal snd) in H. cbn [snd] in H. subst fp'. cbn. lia.
  - intros H. apply (f_equal snd) in H. cbn [snd] in H. subst fp'.
    unfold advance; cbn [pending].
    assert (l <> []) by (apply Hline; [reflexivity | discriminate]).
    destruct l; [congruence | cbn; lia].
Qed.

(** What a successful [fgets] hands over, and what it leaves. *)
Lemma fgets_some size fp line fp' :
  (2 <= size)%nat ->
  fgets size fp = (Some line, fp') ->
  line <> [] /\
  pending fp = line ++ pending fp' /\
  broken fp' = broken fp /\
  err_ind fp' = err_ind fp.
Proof.
  intros Hsize. unfold fgets.
  destruct (read_line (size - 1) (pending fp)) as [[l r] e] eqn:E.
  destruct (read_line_accounts _ _ E) as (Hsplit & Hend & Hline).
  destruct e.
  - destruct (broken fp) eqn:Hb; [discriminate |].
    destruct l as [| c l]; [discriminate |].
    intros H. injection H as <- <-. rewrite (Hend eq_refl) in Hsplit.
    cbn [run_dry pending broken err_ind]. rewrite Hb, orb_false_r.
    repeat split; [discriminate | assumption].
  - intros H. injection H as <- <-. cbn [advance pending broken err_ind].
    repeat split; [apply Hline; [reflexivity | lia] | assumption].
Qed.

(** The null pointer comes with the stream run dry. *)
Lemma fgets_none size fp fp' :
  fgets size fp = (None, fp') -> fp' = run_dry fp.
Proof.
  unfold fgets.
  destruct (read_line (size - 1) (pending fp)) as [[l r] e].
  destruct e; [| discriminate].
  destruct (broken fp); [congruence |].
  destruct l; [congruence | discriminate].
Qed.

(** A line that starts with a character has a key. *)
Lemma extract_key_defined c rest :
  c <> NUL -> exists searchKey, extract_key (c :: rest) = Some searchKey.
Proof.
  intros Hc. rewrite extract_key_spec. unfold key_of_line.
  cbn [MAX_KEY_LENGTH firstn until_nul].
  apply is_nul_false in Hc. rewrite Hc. eauto.
Qed.

(** Over well-formed records and text input the query loop runs to the
    end of the input and comes back, whatever the peer does with the
    replies and however the input ends. *)
Lemma query_loop_returns recordList sock :
  Forall well_formed recordList ->
  forall clientInput s,
    ~ In NUL (pending clientInput) ->
    exists fp' s',
      query_loop recordList sock clientInput s = Ok fp' s' /\
      ferror fp' = err_ind clientInput || broken clientInput.
Proof.
  intros Hwf fp.
  remember (List.length (pending fp)) as n eqn:Hn. revert fp Hn.
  induction n as [n IH] using lt_wf_ind. intros fp -> s Hclean.
  rewrite query_loop_step.
  destruct (fgets QUERY_LINE_SIZE fp) as [[line |] fp1] eqn:E.
  - pose proof (fgets_shrinks _ E) as Hlt.
    destruct (@fgets_some QUERY_LINE_SIZE fp line fp1) as (Hne & Hsplit & Hb & He);
      [unfold QUERY_LINE_SIZE; lia | assumption |].
    rewrite Hsplit in Hclean.
    destruct line as [| c rest]; [congruence |].
    destruct (@extract_key_defined c rest) as [key Hkey].
    { intros ->. apply Hclean. now left. }
    destruct (@respond_events recordList sock (c :: rest) key
                (log (EvRecv (c :: rest)) s) Hwf Hkey) as (s1 & -> & _).
    destruct (IH _ Hlt fp1 eq_refl s1) as (fp' & s' & Hrun & Herr).
    { intros H. apply Hclean, in_or_app. now right. }
    exists fp', s'. split; [assumption |]. now rewrite Herr, Hb, He.
  - apply fgets_none in E. subst fp1. exists (run_dry fp), s.
    split; reflexivity.
Qed.

End Session.

(** ** Sample data: basic facts *)

Section SampleFacts.
Import Sample.

Lemma has_nul buf : existsb is_nul buf = true -> In NUL buf.
Proof.
  intros H. apply existsb_exists in H. destruct H as (c & Hin & Hc).
  apply is_nul_true in Hc. now subst.
Qed.

Lemma store2_well_formed : Forall well_formed store2.
Proof.
  unfold store2. repeat apply Forall_cons; try apply Forall_nil;
    (split; apply has_nul; vm_compute; reflexivity).
Qed.

Lemma no_nul buf : existsb is_nul buf = false -> ~ In NUL buf.
Proof.
  intros H Hin. assert (existsb is_nul buf = true); [| congruence].
  apply existsb_exists. exists NUL. split; [assumption | reflexivity].
Qed.

Lemma taking_all_accepts : accepts_all taking_all.
Proof. intros n buf. reflexivity. Qed.

Lemma plenty_never_fails : never_fails plenty.
Proof. intros k. split; reflexivity. Qed.

(** The scenario of the specification: the query [Ramya] over the two
    sample records yields the line of record 1 and the blank line. *)
Example query_Ramya :
  exists s',
    respond store2 taking_all (line "Ramya") start = Ok tt s' /\
    sent_bufs (trace s') =
      [lit "   1: {Ramya} said {hi there}" ++ [LF]; blank_line].
Proof. eexists. split; vm_compute; reflexivity. Qed.

(** The comparison is case-sensitive. *)
Example query_ramya_lower :
  matches (lit "ramya") (record "Ramya" "hi there") = false /\
  matches (lit "Ramya") (record "Ramya" "hi there") = true.
Proof. split; vm_compute; reflexivity. Qed.

(** An empty file gives an empty store, and every query only the blank line. *)
Example empty_database :
  exists fp' s',
    load_database (Some (fresh_stream [] false)) plenty start = Ok ([], fp') start /\
    respond [] taking_all (line "Ramya") start = Ok tt s' /\
    sent_bufs (trace s') = [blank_line].
Proof. do 2 eexists. repeat split; vm_compute; reflexivity. Qed.

(** A line that starts with a NUL byte leaves the key empty, and the trim
    then indexes the buffer at [SIZE_MAX]. *)
Example nul_line_is_out_of_range :
  lastChar (searchKey_buffer [NUL; LF]) = SIZE_MODULUS - 1 /\
  extract_key [NUL; LF] = None.
Proof. split; vm_compute; reflexivity. Qed.

End SampleFacts.

(** ** The scan over readable records *)

Section Scanned.

Lemma readable_strings r :
  readable r ->
  name_str r = Some (seen_name r) /\ msg_str r = Some (msg_text r).
Proof.
  intros Hmsg. unfold name_str, msg_str, seen_name, msg_text. split.
  - apply c_str_terminated, in_or_app. now right.
  - apply c_str_terminated. assumption.
Qed.

(** A name that holds its terminator is read as its own text. *)
Lemma seen_name_terminated r : In NUL (name r) -> seen_name r = name_text r.
Proof. apply until_nul_app_l. Qed.

(** A name that holds none is read on into the message. *)
Lemma seen_name_runs_on r :
  ~ In NUL (name r) -> seen_name r = name r ++ msg_text r.
Proof.
  intros H. unfold seen_name, msg_text.
  induction (name r) as [| c field IH]; [reflexivity |].
  cbn [app until_nul]. destruct (is_nul c) eqn:E.
  - apply is_nul_true in E. subst. exfalso. apply H. now left.
  - f_equal. apply IH. intros Hin. apply H. now right.
Qed.

(** The loop sends the lines of the records it finds, in store order,
    until a call of [send] falls short. *)
Lemma scan_loop_events sock searchKey nodes : forall from s,
  Forall readable nodes ->
  let lines := map seen_line
                 (filter (fun p => sees searchKey (snd p)) (enumerate from nodes)) in
  let evs := attempted sock (nsend s) lines in
  search_loop sock searchKey nodes (recordCount_at from) s =
  Ok tt {| trace := trace s ++ evs;
           nsend := nsend s + List.length (sent_bufs evs) |}.
Proof.
  induction nodes as [| r nodes IH]; intros from s Hwf; cbv zeta.
  - cbn. f_equal. destruct s; cbn. apply state_eq; [| lia].
    symmetry; apply app_nil_r.
  - inversion Hwf as [| ? ? Hr Hnodes]; subst.
    destruct (@readable_strings r Hr) as [Hn Hm].
    cbn [search_loop]. rewrite Hn, Hm.
    rewrite enumerate_cons. cbn [filter snd].
    change (record_matches (seen_name r) (msg_text r) searchKey)
      with (sees searchKey r).
    change (wrap_int (recordCount_at from + 1)) with (recordCount_at (S from)).
    destruct (sees searchKey r).
    + cbn [map attempted send].
      change (result_line (recordCount_at from) (seen_name r) (msg_text r))
        with (seen_line (from, r)).
      destruct (negb (sock (nsend s) (seen_line (from, r)) =?
                      Z.of_nat (List.length (seen_line (from, r))))).
      * f_equal. unfold perror, log. cbn [trace nsend sent_bufs List.length].
        apply state_eq; [| lia]. rewrite <- app_assoc. reflexivity.
      * rewrite IH by assumption. f_equal. cbn [trace nsend sent_bufs List.length].
        apply state_eq; [| lia]. rewrite <- app_assoc. reflexivity.
    + apply IH. assumption.
Qed.

Lemma respond_scan_state store sock queryLine searchKey s :
  Forall readable store ->
  extract_key queryLine = Some searchKey ->
  let evs := scan_events store sock (nsend s) searchKey in
  respond store sock queryLine s =
  Ok tt {| trace := trace s ++ evs;
           nsend := nsend s + List.length (sent_bufs evs) |}.
Proof.
  intros Hwf Hkey. cbv zeta. unfold respond. rewrite Hkey.
  change 1 with (recordCount_at 0).
  rewrite scan_loop_events by assumption. cbv zeta.
  fold (Scan store searchKey). unfold scan_events, sentinel.
  cbn [send trace nsend blank_line List.length Z.of_nat Pos.of_succ_nat].
  set (evs := attempted sock (nsend s) (map seen_line (Scan store searchKey))).
  destruct (negb (sock (nsend s + List.length (sent_bufs evs))%nat blank_line =? 1));
    f_equal; unfold perror, log; cbn [trace nsend];
    (apply state_eq;
     [rewrite <- !app_assoc; reflexivity
     | rewrite sent_bufs_app; cbn [sent_bufs]; rewrite length_app;
       cbn [List.length]; lia]).
Qed.

Lemma respond_scan store sock queryLine searchKey s :
  Forall readable store ->
  extract_key queryLine = Some searchKey ->
  exists s',
    respond store sock queryLine s = Ok tt s' /\
    trace s' = trace s ++ scan_events store sock (nsend s) searchKey.
Proof.
  intros Hwf Hkey. eexists. split.
  - apply respond_scan_state; eassumption.
  - reflexivity.
Qed.

Lemma sees_spec key r :
  sees key r = true <->
  substring key (seen_name r) \/ substring key (msg_text r).
Proof.
  unfold sees, record_matches. rewrite orb_true_iff, !strstr_spec. tauto.
Qed.

(** The records found are the records whose strings hold the key, each at
    its load position. *)
Lemma in_Scan store key i r :
  In (i, r) (Scan store key) <->
  nth_error store i = Some r /\
  (substring key (seen_name r) \/ substring key (msg_text r)).
Proof.
  unfold Scan. rewrite filter_In, in_enumerate, Nat.sub_0_r. cbn [snd].
  rewrite sees_spec. intuition lia.
Qed.

Lemma seen_line_body p : seen_line p = seen_body p ++ ["010"%char].
Proof.
  unfold seen_line, seen_body, result_line. rewrite <- !app_assoc. reflexivity.
Qed.

(** What is handed to [send]: an initial part of the lines, then the
    sentinel. *)
Lemma scan_sent store sock n key :
  exists k,
    sent_bufs (scan_events store sock n key) =
    firstn k (map seen_line (Scan store key)) ++ [["010"%char]].
Proof.
  destruct (attempted_prefix sock (map seen_line (Scan store key)) n) as [k Hk].
  exists k. unfold scan_events. cbv zeta.
  now rewrite sent_bufs_app, sentinel_sent, Hk.
Qed.

Lemma scan_sent_all store sock n key :
  accepts_all sock ->
  sent_bufs (scan_events store sock n key) =
  map seen_line (Scan store key) ++ [["010"%char]].
Proof.
  intros Hall. unfold scan_events. cbv zeta.
  now rewrite sent_bufs_app, sentinel_sent, attempted_all.
Qed.

Lemma Forall2_map_l {A B : Type} (P : B -> A -> Prop) (f : A -> B) (l : list A) :
  (forall x, In x l -> P (f x) x) -> Forall2 P (map f l) l.
Proof.
  induction l as [| x l IH]; intros H; cbn [map]; constructor.
  - apply H. now left.
  - apply IH. intros y Hy. apply H. now right.
Qed.

End Scanned.

(** ** The ordinal as it is printed *)

Section Ordinals.

Lemma uint_chars d c :
  In c (list_ascii_of_string (NilEmpty.string_of_uint d)) ->
  In c (lit "0123456789").
Proof.
  induction d; cbn [NilEmpty.string_of_uint list_ascii_of_string In];
    intros H; try (destruct H as [<- | H]; [cbn; tauto | auto]).
  contradiction.
Qed.

(** A number prints as digits behind an optional sign. *)
Lemma decimal_chars z c : In c (decimal z) -> In c (lit "-0123456789").
Proof.
  assert (Hu : forall d, In c (list_ascii_of_string (NilZero.string_of_uint d)) ->
                         In c (lit "-0123456789")).
  { intros d H. right. destruct d; try (apply uint_chars in H; exact H).
    cbn in H. cbn. tauto. }
  unfold decimal. destruct z as [| p | p];
    cbn [Z.to_int NilZero.string_of_int list_ascii_of_string].
  - apply Hu.
  - apply Hu.
  - cbn [In]. intros [<- | H]; [now left | exact (Hu _ H)].
Qed.

Lemma fmt_4d_chars z c : In c (fmt_4d z) -> In c (lit " -0123456789").
Proof.
  unfold fmt_4d. cbv zeta. intros H. apply in_app_or in H. destruct H as [H | H].
  - apply repeat_spec in H. subst. now left.
  - right. eapply decimal_chars. exact H.
Qed.

Lemma fmt_4d_width z : (4 <= List.length (fmt_4d z))%nat.
Proof. unfold fmt_4d. cbv zeta. rewrite length_app, repeat_length. lia. Qed.

Lemma skip_spaces_id text : ~ In " "%char text -> skip_spaces text = text.
Proof.
  destruct text as [| c text]; [reflexivity |]. intros H. cbn [skip_spaces].
  destruct (Ascii.eqb c " ") eqn:E; [| reflexivity].
  apply Ascii.eqb_eq in E. subst. exfalso. apply H. now left.
Qed.

Lemma skip_spaces_pad n text :
  skip_spaces (repeat " "%char n ++ text) = skip_spaces text.
Proof. induction n as [| n IH]; [reflexivity | exact IH]. Qed.

(** The field of [%4d] reads back as the number printed. *)
Lemma read_ordinal_fmt_4d z : read_ordinal (fmt_4d z) = Some z.
Proof.
  unfold read_ordinal, fmt_4d. cbv zeta.
  rewrite skip_spaces_pad, skip_spaces_id.
  - unfold decimal. rewrite string_of_list_ascii_of_string.
    rewrite NilZero.isi.
    + cbn [option_map]. f_equal. apply DecimalZ.of_to.
    + destruct z as [| p | p]; cbn [Z.to_int]; try discriminate.
      intros H. injection H as H. exact (DecimalPos.Unsigned.to_uint_nonnil p H).
    + destruct z as [| p | p]; cbn [Z.to_int]; try discriminate.
      intros H. injection H as H. exact (DecimalPos.Unsigned.to_uint_nonnil p H).
  - intros H. apply decimal_chars in H. cbn in H.
    repeat (destruct H as [H | H]; [discriminate H |]). exact H.
Qed.

(** The line of a record shows the counter, the name and the message. *)
Lemma seen_line_shows i r :
  shows (seen_line (i, r)) (recordCount_at i)
    (until_nul (name r ++ msg r)) (until_nul (msg r)).
Proof.
  exists (fmt_4d (recordCount_at i)). split; [| split].
  - unfold seen_line, result_line. reflexivity.
  - apply fmt_4d_width.
  - apply read_ordinal_fmt_4d.
Qed.

End Ordinals.

(** ** The reply as text *)

Section ReplyText.

Lemma delivered_app evs evs' :
  delivered (evs ++ evs') = delivered evs ++ delivered evs'.
Proof.
  induction evs as [| e evs IH]; [reflexivity |].
  destruct e; cbn [app delivered]; rewrite IH; [| | | | rewrite app_assoc];
    reflexivity.
Qed.

Lemma delivered_attempted sock bufs : forall n,
  accepts_all sock -> delivered (attempted sock n bufs) = List.concat bufs.
Proof.
  induction bufs as [| buf more IH]; intros n Hall; [reflexivity |].
  cbn [attempted delivered List.concat]. rewrite Hall, Z.eqb_refl. cbn [negb].
  rewrite Nat2Z.id, firstn_all, IH by assumption. reflexivity.
Qed.

Lemma delivered_sentinel sock n :
  accepts_all sock -> delivered (sentinel sock n) = ["010"%char].
Proof.
  intros Hall. unfold sentinel. cbv zeta. rewrite Hall. reflexivity.
Qed.

Lemma lines_of_line body rest :
  ~ In "010"%char body ->
  lines_of (body ++ "010"%char :: rest) = body :: lines_of rest.
Proof.
  induction body as [| c body IH]; intros H; [reflexivity |].
  cbn [app lines_of]. destruct (Ascii.eqb c "010") eqn:E.
  - apply Ascii.eqb_eq in E. subst. exfalso. apply H. now left.
  - rewrite IH; [reflexivity |]. intros Hin. apply H. now right.
Qed.

Lemma lines_of_bodies bodies : forall rest,
  Forall (fun body => ~ In "010"%char body) bodies ->
  lines_of (List.concat (map (fun body => body ++ ["010"%char]) bodies) ++ rest) =
  bodies ++ lines_of rest.
Proof.
  induction bodies as [| body bodies IH]; intros rest H; [reflexivity |].
  inversion H as [| ? ? Hb Hbs]; subst.
  cbn [map List.concat app]. rewrite <- !app_assoc. cbn [app].
  rewrite lines_of_line by assumption. now rewrite IH.
Qed.

(** Lines without a newline of their own, each ended by one, and the
    sentinel behind them read as those lines and one blank line. *)
Lemma complete_lines_reply bodies :
  Forall (fun body => ~ In "010"%char body) bodies ->
  complete_lines
    (List.concat (map (fun body => body ++ ["010"%char]) bodies) ++ ["010"%char]) =
  bodies ++ [[]].
Proof.
  intros H. unfold complete_lines. rewrite lines_of_bodies by assumption.
  change (lines_of ["010"%char]) with ([@nil ascii; @nil ascii]).
  rewrite removelast_app by discriminate. reflexivity.
Qed.

Lemma until_nul_incl buf c : In c (until_nul buf) -> In c buf.
Proof.
  intros H. destruct (until_nul_prefix buf) as [tail Hb]. rewrite Hb.
  apply in_or_app. now left.
Qed.

(** The line of a plain record holds no newline but the one that ends it. *)
Lemma seen_body_plain p : plain (snd p) -> ~ In "010"%char (seen_body p).
Proof.
  intros [Hn Hm] H. unfold seen_body in H.
  apply in_app_or in H. destruct H as [H | H]; [| 
  apply in_app_or in H; destruct H as [H | H]; [|
  apply in_app_or in H; destruct H as [H | H]; [|
  apply in_app_or in H; destruct H as [H | H]; [|
  apply in_app_or in H; destruct H as [H | H]]]]].
  - apply fmt_4d_chars in H. cbn in H.
    repeat (destruct H as [H | H]; [discriminate H |]). exact H.
  - cbn in H. repeat (destruct H as [H | H]; [discriminate H |]). exact H.
  - unfold seen_name in H. apply until_nul_incl, in_app_or in H. tauto.
  - cbn in H. repeat (destruct H as [H | H]; [discriminate H |]). exact H.
  - unfold msg_text in H. apply until_nul_incl in H. tauto.
  - cbn in H. repeat (destruct H as [H | H]; [discriminate H |]). exact H.
Qed.

Lemma seen_body_closes p : exists front, seen_body p = front ++ ["}"%char].
Proof.
  unfold seen_body. eexists. rewrite !app_assoc. reflexivity.
Qed.

End ReplyText.

Section SampleScan.
Import Sample.

Lemma store2_readable : Forall readable store2.
Proof.
  unfold store2. repeat apply Forall_cons; try apply Forall_nil;
    (apply has_nul; vm_compute; reflexivity).
Qed.

(** The query [Alex] over the two sample records: the only line sent is
    that of the second record, and it is numbered 2. *)
Example query_Alex :
  exists s',
    respond store2 taking_all (line "Alex") start = Ok tt s' /\
    sent_bufs (trace s') =
      [lit "   2: {Alex} said {bye now}" ++ ["010"%char]; ["010"%char]].
Proof. eexists. split; vm_compute; reflexivity. Qed.

End SampleScan.

(** ** Runs that start from a longer log *)

Section History.

Lemma prepend_log older e s : log e (prepend older s) = prepend older (log e s).
Proof. unfold log, prepend. cbn. now rewrite app_assoc. Qed.

Lemma send_prepend sock buf older s :
  send sock buf (prepend older s) =
  (fst (send sock buf s), prepend older (snd (send sock buf s))).
Proof. unfold send, prepend. cbn. now rewrite app_assoc. Qed.

Lemma search_loop_prepend sock searchKey older nodes : forall recordCount s,
  search_loop sock searchKey nodes recordCount (prepend older s) =
  shift older (search_loop sock searchKey nodes recordCount s).
Proof.
  induction nodes as [| r nodes IH]; intros recordCount s; [reflexivity |].
  cbn [search_loop].
  destruct (name_str r) as [nm |]; [| reflexivity].
  destruct (msg_str r) as [ms |]; [| reflexivity].
  destruct (record_matches nm ms searchKey); [| apply IH].
  rewrite send_prepend. cbn [send fst snd].
  destruct (negb _).
  - cbn [shift]. unfold perror. now rewrite prepend_log.
  - apply IH.
Qed.

Lemma respond_prepend store sock queryLine older s :
  respond store sock queryLine (prepend older s) =
  shift older (respond store sock queryLine s).
Proof.
  unfold respond. destruct (extract_key queryLine) as [key |]; [| reflexivity].
  rewrite search_loop_prepend.
  destruct (search_loop sock key store 1 s) as [[] s1 | status s1 | s1];
    try reflexivity.
  cbn [shift]. rewrite send_prepend. cbn [send fst snd].
  destruct (negb _); cbn [shift]; [| reflexivity].
  unfold perror. now rewrite prepend_log.
Qed.

Lemma query_loop_prepend store sock older : forall n clientInput s,
  List.length (pending clientInput) = n ->
  query_loop store sock clientInput (prepend older s) =
  shift older (query_loop store sock clientInput s).
Proof.
  induction n as [n IH] using lt_wf_ind. intros fp s Hn.
  rewrite !query_loop_step.
  destruct (fgets QUERY_LINE_SIZE fp) as [[line |] fp'] eqn:E; [| reflexivity].
  pose proof (fgets_shrinks _ E) as Hlt. rewrite Hn in Hlt.
  rewrite prepend_log, respond_prepend.
  destruct (respond store sock line (log (EvRecv line) s))
    as [[] s1 | status s1 | s1]; try reflexivity.
  cbn [shift]. apply (IH _ Hlt). reflexivity.
Qed.

End History.

(** ** The first line of a session *)

Section FirstLine.

Lemma no_lf buf : existsb (fun c => Ascii.eqb c LF) buf = false -> ~ In LF buf.
Proof.
  intros H Hin. assert (existsb (fun c => Ascii.eqb c LF) buf = true); [| congruence].
  apply existsb_exists. exists LF. split; [assumption | reflexivity].
Qed.

Lemma read_line_complete text : forall room rest,
  ~ In LF text ->
  (List.length text < room)%nat ->
  read_line room (text ++ LF :: rest) = (text ++ [LF], rest, false).
Proof.
  induction text as [| c text IH]; intros room rest Hclean Hroom;
    destruct room as [| room]; cbn [List.length] in Hroom; try lia.
  - cbn. reflexivity.
  - cbn [app read_line].
    destruct (Ascii.eqb c LF) eqn:E.
    + apply Ascii.eqb_eq in E. exfalso. apply Hclean. now left.
    + rewrite IH; [reflexivity | cbn in Hclean; tauto | lia].
Qed.

Lemma fgets_line size fp text rest :
  ~ In LF text ->
  (S (List.length text) < size)%nat ->
  pending fp = text ++ LF :: rest ->
  fgets size fp = (Some (text ++ [LF]), advance fp rest).
Proof.
  intros Hclean Hsize Hpending. unfold fgets. rewrite Hpending.
  rewrite read_line_complete; [reflexivity | assumption | lia].
Qed.

Lemma log_prepend e s :
  log e s = prepend (trace s ++ [e]) {| trace := []; nsend := nsend s |}.
Proof. unfold log, prepend. cbn [trace nsend]. now rewrite app_nil_r. Qed.

Lemma shift_shift {A : Type} older newer (r : result A) :
  shift older (shift newer r) = shift (older ++ newer) r.
Proof.
  destruct r; cbn [shift]; unfold prepend; cbn [trace nsend];
    now rewrite app_assoc.
Qed.

(** A session whose input starts with a line that fits the buffer: the
    line is read whole and answered, and the session goes on with what
    stands behind it. *)
Lemma query_loop_first_line store sock text rest fails s :
  ~ In "010"%char text ->
  (List.length text < 999)%nat ->
  query_loop store sock (fresh_stream ((text ++ ["010"%char]) ++ rest) fails) s =
  shift (trace s ++ [EvRecv (text ++ ["010"%char])])
    (match respond store sock (text ++ ["010"%char])
             {| trace := []; nsend := nsend s |} with
     | Ok _ s1 => query_loop store sock (fresh_stream rest fails) s1
     | Exit status s1 => Exit status s1
     | Fault s1 => Fault s1
     end).
Proof.
  intros Hclean Hshort. rewrite query_loop_step.
  rewrite (@fgets_line QUERY_LINE_SIZE
             (fresh_stream ((text ++ ["010"%char]) ++ rest) fails) text rest Hclean);
    [| unfold QUERY_LINE_SIZE; lia
     | cbn [fresh_stream pending]; now rewrite <- app_assoc].
  rewrite log_prepend, respond_prepend.
  change (text ++ [LF]) with (text ++ ["010"%char]).
  change (advance (fresh_stream ((text ++ ["010"%char]) ++ rest) fails) rest)
    with (fresh_stream rest fails).
  destruct (respond store sock (text ++ ["010"%char])
              {| trace := []; nsend := nsend s |}) as [[] s1 | status s1 | s1];
    cbn [shift]; try reflexivity.
  apply (@query_loop_prepend store sock _ _ (fresh_stream rest fails) s1 eq_refl).
Qed.

End FirstLine.

(** * The properties of the specification *)

(** ** The search key (C9, C10) *)

(** C10.  The newline trim reads [searchKey[strlen(searchKey) - 1]].  For
    every line whose first byte is not NUL the copied key holds at least
    one character (and at most five), so the index is the position of its
    last character, lies inside the six-byte buffer, and the trim does not
    take its out-of-range branch. *)
Theorem trim_index_in_bounds :
  forall queryLine c rest,
    queryLine = c :: rest ->
    c <> NUL ->
    let searchKey := searchKey_buffer queryLine in
    (1 <= strlen searchKey <= MAX_KEY_LENGTH)%nat /\
    lastChar searchKey = Z.of_nat (strlen searchKey) - 1 /\
    0 <= lastChar searchKey < Z.of_nat (List.length searchKey) /\
    index searchKey (lastChar searchKey) <> None /\
    trim_newline searchKey <> None /\
    extract_key queryLine <> None.
Proof.
  intros queryLine c rest -> Hc searchKey.
  assert (Hlen : (1 <= strlen searchKey <= MAX_KEY_LENGTH)%nat).
  { unfold searchKey, strlen. rewrite searchKey_buffer_shape. cbv zeta.
    rewrite until_nul_app by apply until_nul_clean.
    split; [| apply key_text_short].
    cbn [MAX_KEY_LENGTH firstn until_nul].
    apply is_nul_false in Hc. rewrite Hc. cbn. lia. }
  assert (Hsize : List.length searchKey = 6%nat).
  { unfold searchKey. rewrite searchKey_buffer_shape. cbv zeta.
    pose proof (key_text_short (c :: rest)).
    rewrite length_app. cbn [List.length]. rewrite repeat_length.
    unfold MAX_KEY_LENGTH in *. lia. }
  assert (Hlast : lastChar searchKey = Z.of_nat (strlen searchKey) - 1).
  { unfold lastChar, wrap_size, SIZE_MODULUS. apply Z.mod_small.
    unfold MAX_KEY_LENGTH in Hlen. lia. }
  assert (Hin : 0 <= lastChar searchKey < Z.of_nat (List.length searchKey)).
  { rewrite Hlast, Hsize. unfold MAX_KEY_LENGTH in Hlen. lia. }
  assert (Hidx : index searchKey (lastChar searchKey) <> None).
  { unfold index.
    replace ((0 <=? lastChar searchKey) &&
             (lastChar searchKey <? Z.of_nat (List.length searchKey))) with true
      by (symmetry; apply andb_true_iff; split;
          [apply Z.leb_le | apply Z.ltb_lt]; lia).
    apply nth_error_Some. lia. }
  repeat split; try assumption; try lia.
  - unfold trim_newline.
    destruct (index searchKey (lastChar searchKey)); [| congruence].
    destruct (Ascii.eqb a LF); discriminate.
  - destruct (@extract_key_defined c rest Hc) as [key ->]. discriminate.
Qed.

Lemma trim_index_in_bounds_witness :
  let searchKey := searchKey_buffer (Sample.line "Ramya") in
  (1 <= strlen searchKey <= MAX_KEY_LENGTH)%nat /\
  lastChar searchKey = Z.of_nat (strlen searchKey) - 1 /\
  0 <= lastChar searchKey < Z.of_nat (List.length searchKey) /\
  index searchKey (lastChar searchKey) <> None /\
  trim_newline searchKey <> None /\
  extract_key (Sample.line "Ramya") <> None.
Proof.
  apply (@trim_index_in_bounds (Sample.line "Ramya") "R"%char
           (Sample.line "amya")).
  - reflexivity.
  - discriminate.
Defined.

(** C9, as stated, fails: a line of five [y] and a line of 999 [y] agree on
    their first five characters, and over the same store the first gets
    the blank line alone while the second, which fills the buffer, gets the
    blank line and then, for the newline left over, a result line for every
    record and a second blank line. *)
Lemma same_first_five_characters_different_replies :
  firstn 5 (Sample.line "yyyyy") = firstn 5 (repeat "y"%char 999 ++ ["010"%char]) /\
  (exists fp s',
     query_loop Sample.store2 Sample.taking_all
       (fresh_stream (Sample.line "yyyyy") false) Sample.start = Ok fp s' /\
     sent_bufs (trace s') = [["010"%char]]) /\
  (exists fp s',
     query_loop Sample.store2 Sample.taking_all
       (fresh_stream (repeat "y"%char 999 ++ ["010"%char]) false) Sample.start
       = Ok fp s' /\
     sent_bufs (trace s') =
       [["010"%char];
        lit "   1: {Ramya} said {hi there}" ++ ["010"%char];
        lit "   2: {Alex} said {bye now}" ++ ["010"%char];
        ["010"%char]]).
Proof.
  split; [reflexivity |].
  split; do 2 eexists; split; vm_compute; reflexivity.
Qed.

(** C9, amended.  For every client line that fits the buffer (at most 998
    characters in front of its newline), the key the search uses is made of
    the first five characters of the line only: it is the text of those
    five, less a final newline, so it is no longer than five and an initial
    part of them.  Two such lines that agree on their first five
    characters have the same key and get the same reply: over the same
    store, the same socket and the same input behind the line, the two
    sessions are one and the same run, put behind the record of the line
    that was read. *)
Theorem short_lines_with_the_same_front_get_the_same_reply :
  forall text1 text2 rest fails store sock s,
    ~ In "010"%char text1 ->
    ~ In "010"%char text2 ->
    (List.length text1 < 999)%nat ->
    (List.length text2 < 999)%nat ->
    firstn 5 (text1 ++ ["010"%char]) = firstn 5 (text2 ++ ["010"%char]) ->
    extract_key (text1 ++ ["010"%char]) =
      key_of_line (firstn 5 (text1 ++ ["010"%char])) /\
    (forall searchKey,
        extract_key (text1 ++ ["010"%char]) = Some searchKey ->
        (List.length searchKey <= 5)%nat /\
        exists tail, firstn 5 (text1 ++ ["010"%char]) = searchKey ++ tail) /\
    extract_key (text1 ++ ["010"%char]) = extract_key (text2 ++ ["010"%char]) /\
    exists run : result FILE,
      query_loop store sock (fresh_stream ((text1 ++ ["010"%char]) ++ rest) fails) s =
        shift (trace s ++ [EvRecv (text1 ++ ["010"%char])]) run /\
      query_loop store sock (fresh_stream ((text2 ++ ["010"%char]) ++ rest) fails) s =
        shift (trace s ++ [EvRecv (text2 ++ ["010"%char])]) run.
Proof.
  intros text1 text2 rest fails store sock s Hc1 Hc2 Hs1 Hs2 Hsame.
  set (line1 := text1 ++ ["010"%char]) in *.
  set (line2 := text2 ++ ["010"%char]) in *.
  change 5%nat with MAX_KEY_LENGTH in *.
  assert (Hkey : extract_key line1 = extract_key line2).
  { rewrite !extract_key_spec, <- (key_of_line_first_five line1),
      <- (key_of_line_first_five line2), Hsame. reflexivity. }
  split; [| split; [| split; [exact Hkey |]]].
  - rewrite extract_key_spec. symmetry. apply key_of_line_first_five.
  - intros searchKey H. rewrite extract_key_spec in H. unfold key_of_line in H.
    pose proof (key_text_short line1) as Hshort.
    destruct (until_nul_prefix (firstn MAX_KEY_LENGTH line1)) as [tail1 H1].
    destruct (until_nul (firstn MAX_KEY_LENGTH line1)) as [| c text];
      [discriminate |].
    injection H as <-. split.
    + etransitivity; [apply chomp_length | exact Hshort].
    + destruct (chomp_prefix (c :: text)) as [tail2 H2].
      exists (tail2 ++ tail1). rewrite app_assoc, <- H2. exact H1.
  - exists (match respond store sock line1 {| trace := []; nsend := nsend s |} with
            | Ok _ s1 => query_loop store sock (fresh_stream rest fails) s1
            | Exit status s1 => Exit status s1
            | Fault s1 => Fault s1
            end).
    split.
    + apply query_loop_first_line; assumption.
    + unfold line1, line2. rewrite query_loop_first_line by assumption.
      fold line1 line2. unfold respond. rewrite Hkey. reflexivity.
Qed.

Lemma short_lines_with_the_same_front_get_the_same_reply_witness :
  extract_key (lit "Ramya Iyer" ++ ["010"%char]) =
    key_of_line (firstn 5 (lit "Ramya Iyer" ++ ["010"%char])) /\
  (forall searchKey,
      extract_key (lit "Ramya Iyer" ++ ["010"%char]) = Some searchKey ->
      (List.length searchKey <= 5)%nat /\
      exists tail, firstn 5 (lit "Ramya Iyer" ++ ["010"%char]) = searchKey ++ tail) /\
  extract_key (lit "Ramya Iyer" ++ ["010"%char]) =
    extract_key (lit "Ramya" ++ ["010"%char]) /\
  exists run : result FILE,
    query_loop Sample.store2 Sample.taking_all
      (fresh_stream ((lit "Ramya Iyer" ++ ["010"%char]) ++ Sample.line "Alex") false)
      Sample.start =
      shift (trace Sample.start ++ [EvRecv (lit "Ramya Iyer" ++ ["010"%char])]) run /\
    query_loop Sample.store2 Sample.taking_all
      (fresh_stream ((lit "Ramya" ++ ["010"%char]) ++ Sample.line "Alex") false)
      Sample.start =
      shift (trace Sample.start ++ [EvRecv (lit "Ramya" ++ ["010"%char])]) run.
Proof.
  apply (@short_lines_with_the_same_front_get_the_same_reply
           (lit "Ramya Iyer") (lit "Ramya") (Sample.line "Alex") false
           Sample.store2 Sample.taking_all Sample.start).
  - apply no_lf. reflexivity.
  - apply no_lf. reflexivity.
  - vm_compute. lia.
  - vm_compute. lia.
  - reflexivity.
Defined.

(** ** The reply to one query (C1, C2, C3, C7) *)

(** C1, as stated, fails in two ways.  A record may hold newlines: the
    well-formed record whose message is [a], an empty line and [b] makes
    the reply to the query [Eve] read as four lines, two of them blank, the
    first of the two in the middle of the result.  And a client line longer
    than the buffer is answered piece by piece: a single line of 1200
    characters gets two replies, hence two blank lines. *)
Lemma blank_line_inside_a_result_and_twice_for_a_long_line :
  (well_formed Sample.gappy /\
   exists s',
     respond [Sample.gappy] Sample.taking_all (Sample.line "Eve") Sample.start
       = Ok tt s' /\
     complete_lines (delivered (trace s')) =
       [lit "   1: {Eve} said {a"; []; lit "b}"; []]) /\
  (exists fp s',
     query_loop Sample.store2 Sample.taking_all
       (fresh_stream (repeat "a"%char 1200 ++ ["010"%char]) false) Sample.start
       = Ok fp s' /\
     List.length (received (trace s')) = 2%nat /\
     sent_bufs (trace s') = [["010"%char]; ["010"%char]] /\
     delivered (trace s') = ["010"%char; "010"%char]).
Proof.
  split.
  - split.
    + split; apply has_nul; vm_compute; reflexivity.
    + eexists. split; vm_compute; reflexivity.
  - do 2 eexists. split; [vm_compute; reflexivity |].
    repeat split; vm_compute; reflexivity.
Qed.

(** C1, amended.  For every piece of input that [fgets] delivers and that
    has a key, and every store whose records can be read, the reply hands
    to [send] result lines, each of them some text that ends in a closing
    brace followed by a newline, and then one buffer that holds the newline
    alone: that buffer is handed over exactly once, and last, whatever the
    peer does with the result lines and however many records were found.
    A peer that takes what it is sent receives the result lines of all
    records found and the newline behind them; if the records hold no
    newline themselves, that text reads as one line per record found, none
    of them blank, and exactly one blank line at the end.  In a session, a
    client line of at most 998 characters in front of its newline is such a
    piece: it is read whole, answered by this reply, and the session goes
    on with the input behind it. *)
Theorem reply_is_result_lines_then_one_blank_line :
  forall store sock queryLine searchKey s,
    Forall readable store ->
    extract_key queryLine = Some searchKey ->
    exists evs bodies k,
      respond store sock queryLine s =
        Ok tt {| trace := trace s ++ evs;
                 nsend := nsend s + List.length (sent_bufs evs) |} /\
      List.length bodies = List.length (Scan store searchKey) /\
      Forall (fun body => exists front, body = front ++ ["}"%char]) bodies /\
      sent_bufs evs =
        map (fun body => body ++ ["010"%char]) (firstn k bodies) ++ [["010"%char]] /\
      count_occ (list_eq_dec ascii_dec) (sent_bufs evs) ["010"%char] = 1%nat /\
      (accepts_all sock ->
       delivered evs =
         List.concat (map (fun body => body ++ ["010"%char]) bodies) ++ ["010"%char]) /\
      (accepts_all sock -> Forall plain store ->
       complete_lines (delivered evs) = bodies ++ [[]] /\ ~ In [] bodies) /\
      (forall text rest fails,
          queryLine = text ++ ["010"%char] ->
          ~ In "010"%char text ->
          (List.length text < 999)%nat ->
          query_loop store sock (fresh_stream (queryLine ++ rest) fails) s =
          shift (trace s ++ EvRecv queryLine :: evs)
            (query_loop store sock (fresh_stream rest fails)
               {| trace := []; nsend := nsend s + List.length (sent_bufs evs) |})).
Proof.
  intros store sock queryLine searchKey s Hread Hkey.
  pose proof (@respond_scan_state store sock queryLine searchKey s Hread Hkey)
    as Hrun. cbv zeta in Hrun.
  destruct (scan_sent store sock (nsend s) searchKey) as [k Hk].
  set (bodies := map seen_body (Scan store searchKey)).
  assert (Hlines : map seen_line (Scan store searchKey) =
                   map (fun body => body ++ ["010"%char]) bodies).
  { unfold bodies. rewrite map_map. apply map_ext. intros p. apply seen_line_body. }
  assert (Hclose : Forall (fun body => exists front, body = front ++ ["}"%char]) bodies).
  { apply Forall_forall. intros body Hin. apply in_map_iff in Hin.
    destruct Hin as (p & <- & _). apply seen_body_closes. }
  assert (Hfull : ~ In [] bodies).
  { intros Hin. rewrite Forall_forall in Hclose.
    destruct (Hclose _ Hin) as [front Hf]. destruct front; discriminate. }
  assert (Hsent : sent_bufs (scan_events store sock (nsend s) searchKey) =
                  map (fun body => body ++ ["010"%char]) (firstn k bodies)
                  ++ [["010"%char]]).
  { rewrite Hk, Hlines, firstn_map. reflexivity. }
  assert (Hgot : accepts_all sock ->
                 delivered (scan_events store sock (nsend s) searchKey) =
                 List.concat (map (fun body => body ++ ["010"%char]) bodies)
                 ++ ["010"%char]).
  { intros Hall. unfold scan_events. cbv zeta.
    rewrite delivered_app, delivered_attempted, delivered_sentinel, Hlines
      by assumption.
    reflexivity. }
  exists (scan_events store sock (nsend s) searchKey), bodies, k.
  split; [exact Hrun |].
  split; [unfold bodies; apply length_map |].
  split; [exact Hclose |]. split; [exact Hsent |].
  split; [| split; [exact Hgot | split]].
  - rewrite Hsent, count_occ_app.
    rewrite (proj1 (count_occ_not_In _ _ _)).
    + cbn [count_occ].
      destruct (list_eq_dec ascii_dec ["010"%char] ["010"%char]);
        [reflexivity | congruence].
    + intros Hin. apply in_map_iff in Hin. destruct Hin as (body & Hb & Hin).
      apply Hfull. apply in_firstn in Hin.
      destruct body as [| c [| c' body]]; [exact Hin | discriminate Hb ..].
  - intros Hall Hplain. split; [| exact Hfull].
    rewrite (Hgot Hall). apply complete_lines_reply.
    apply Forall_forall. intros body Hin. unfold bodies in Hin.
    apply in_map_iff in Hin. destruct Hin as ([i r] & <- & Hin).
    apply seen_body_plain. cbn [snd].
    apply in_Scan in Hin. destruct Hin as [Hnth _].
    rewrite Forall_forall in Hplain. apply Hplain.
    eapply nth_error_In. exact Hnth.
  - intros text rest fails Hline Hclean Hshort.
    set (evs := scan_events store sock (nsend s) searchKey) in *.
    rewrite Hline in *.
    rewrite query_loop_first_line by assumption.
    pose proof (@respond_scan_state store sock (text ++ ["010"%char]) searchKey
                  {| trace := []; nsend := nsend s |} Hread Hkey) as Hfirst.
    cbv zeta in Hfirst. cbn [trace nsend app] in Hfirst. fold evs in Hfirst.
    rewrite Hfirst.
    replace {| trace := evs; nsend := nsend s + List.length (sent_bufs evs) |}
      with (prepend evs
              {| trace := []; nsend := nsend s + List.length (sent_bufs evs) |})
      by (unfold prepend; cbn [trace nsend]; now rewrite app_nil_r).
    rewrite (@query_loop_prepend store sock evs _ (fresh_stream rest fails) _ eq_refl).
    rewrite shift_shift, <- app_assoc. reflexivity.
Qed.

Lemma reply_is_result_lines_then_one_blank_line_witness :
  exists evs bodies k,
    respond Sample.store2 Sample.taking_all (Sample.line "Ramya") Sample.start =
      Ok tt {| trace := trace Sample.start ++ evs;
               nsend := nsend Sample.start + List.length (sent_bufs evs) |} /\
    List.length bodies = List.length (Scan Sample.store2 (lit "Ramya")) /\
    Forall (fun body => exists front, body = front ++ ["}"%char]) bodies /\
    sent_bufs evs =
      map (fun body => body ++ ["010"%char]) (firstn k bodies) ++ [["010"%char]] /\
    count_occ (list_eq_dec ascii_dec) (sent_bufs evs) ["010"%char] = 1%nat /\
    (accepts_all Sample.taking_all ->
     delivered evs =
       List.concat (map (fun body => body ++ ["010"%char]) bodies) ++ ["010"%char]) /\
    (accepts_all Sample.taking_all -> Forall plain Sample.store2 ->
     complete_lines (delivered evs) = bodies ++ [[]] /\ ~ In [] bodies) /\
    (forall text rest fails,
        Sample.line "Ramya" = text ++ ["010"%char] ->
        ~ In "010"%char text ->
        (List.length text < 999)%nat ->
        query_loop Sample.store2 Sample.taking_all
          (fresh_stream (Sample.line "Ramya" ++ rest) fails) Sample.start =
        shift (trace Sample.start ++ EvRecv (Sample.line "Ramya") :: evs)
          (query_loop Sample.store2 Sample.taking_all (fresh_stream rest fails)
             {| trace := [];
                nsend := nsend Sample.start + List.length (sent_bufs evs) |})).
Proof.
  apply (@reply_is_result_lines_then_one_blank_line Sample.store2
           Sample.taking_all (Sample.line "Ramya") (lit "Ramya") Sample.start).
  - exact store2_readable.
  - reflexivity.
Defined.

(** C2, as stated, fails: a record whose name fills its 50 bytes loads
    like any other, and the search reads its name on into the message.
    The record named by fifty [A] with the message [Bxyz] is sent for the
    key [AB], which occurs neither in its name nor in its message. *)
Lemma unterminated_name_is_matched_across_the_fields :
  (exists fp,
     load_database (Some (fresh_stream Sample.runon_file false))
       Sample.plenty Sample.start = Ok ([Sample.runon], fp) Sample.start) /\
  ~ substring (lit "AB") (name Sample.runon) /\
  ~ substring (lit "AB") (msg Sample.runon) /\
  ~ substring (lit "AB") (name_text Sample.runon) /\
  ~ substring (lit "AB") (msg_text Sample.runon) /\
  extract_key (Sample.line "AB") = Some (lit "AB") /\
  exists s',
    respond [Sample.runon] Sample.taking_all (Sample.line "AB") Sample.start
      = Ok tt s' /\
    sent_bufs (trace s') =
      [lit "   1: {AAAAAAAAAAAAAAAAAAAAAAAAAAAAAAAAAAAAAAAAAAAAAAAAAABxyz} said {Bxyz}"
         ++ ["010"%char];
       ["010"%char]].
Proof.
  split; [eexists; vm_compute; reflexivity |].
  repeat split;
    try (intros H; apply strstr_spec in H; vm_compute in H; discriminate H).
  eexists. split; vm_compute; reflexivity.
Qed.

(** C2, amended.  For every store whose records can be read and every key,
    when the peer takes the lines it is sent, the result lines are those of
    the records found, in store order, each showing the name and the
    message as they were read, and the record at a position of the store is
    among them if and only if the key occurs, byte for byte, in the name as
    it is read or in the message.  The name is read up to the first
    terminator of the record: for a record whose name holds its terminator
    that is the name, and the record is found if and only if the key occurs
    in its name or in its message; for a name that fills its array the
    text runs on into the message. *)
Theorem results_are_the_records_read_as_matching :
  forall store sock queryLine searchKey s,
    Forall readable store ->
    extract_key queryLine = Some searchKey ->
    accepts_all sock ->
    exists s' evs found lines,
      respond store sock queryLine s = Ok tt s' /\
      trace s' = trace s ++ evs /\
      sent_bufs evs = lines ++ [["010"%char]] /\
      Forall2 (fun line p =>
                 exists ordinal,
                   shows line ordinal
                     (until_nul (name (snd p) ++ msg (snd p)))
                     (until_nul (msg (snd p))))
              lines found /\
      (forall i r,
          In (i, r) found <->
          nth_error store i = Some r /\
          (substring searchKey (until_nul (name r ++ msg r)) \/
           substring searchKey (until_nul (msg r)))) /\
      (forall i r,
          In NUL (name r) ->
          (In (i, r) found <->
           nth_error store i = Some r /\
           (substring searchKey (name_text r) \/
            substring searchKey (msg_text r)))) /\
      (forall i r,
          ~ In NUL (name r) ->
          (In (i, r) found <->
           nth_error store i = Some r /\
           (substring searchKey (name r ++ msg_text r) \/
            substring searchKey (msg_text r)))).
Proof.
  intros store sock queryLine searchKey s Hread Hkey Hall.
  destruct (@respond_scan store sock queryLine searchKey s Hread Hkey)
    as (s' & Hrun & Htrace).
  exists s', (scan_events store sock (nsend s) searchKey),
    (Scan store searchKey), (map seen_line (Scan store searchKey)).
  split; [exact Hrun |]. split; [exact Htrace |].
  split; [now apply scan_sent_all |].
  split; [| split; [| split]].
  - apply Forall2_map_l. intros [i r] _. exists (recordCount_at i).
    apply seen_line_shows.
  - intros i r. apply in_Scan.
  - intros i r Hname. rewrite in_Scan, (seen_name_terminated _ Hname). tauto.
  - intros i r Hname. rewrite in_Scan, (seen_name_runs_on _ Hname). tauto.
Qed.

Lemma results_are_the_records_read_as_matching_witness :
  exists s' evs found lines,
    respond Sample.store2 Sample.taking_all (Sample.line "Ramya") Sample.start
      = Ok tt s' /\
    trace s' = trace Sample.start ++ evs /\
    sent_bufs evs = lines ++ [["010"%char]] /\
    Forall2 (fun line p =>
               exists ordinal,
                 shows line ordinal
                   (until_nul (name (snd p) ++ msg (snd p)))
                   (until_nul (msg (snd p))))
            lines found /\
    (forall i r,
        In (i, r) found <->
        nth_error Sample.store2 i = Some r /\
        (substring (lit "Ramya") (until_nul (name r ++ msg r)) \/
         substring (lit "Ramya") (until_nul (msg r)))) /\
    (forall i r,
        In NUL (name r) ->
        (In (i, r) found <->
         nth_error Sample.store2 i = Some r /\
         (substring (lit "Ramya") (name_text r) \/
          substring (lit "Ramya") (msg_text r)))) /\
    (forall i r,
        ~ In NUL (name r) ->
        (In (i, r) found <->
         nth_error Sample.store2 i = Some r /\
         (substring (lit "Ramya") (name r ++ msg_text r) \/
          substring (lit "Ramya") (msg_text r)))).
Proof.
  apply (@results_are_the_records_read_as_matching Sample.store2
           Sample.taking_all (Sample.line "Ramya") (lit "Ramya") Sample.start).
  - exact store2_readable.
  - reflexivity.
  - exact taking_all_accepts.
Defined.

(** C3.  For every store that can be read and that an [int] can count, and
    every query, each result line the reply sends shows, as its ordinal,
    the 1-based load position of its record in the full store: the line
    for the record at 0-based position [i] starts with a field of at least
    four characters that reads as the number [i + 1], however many of the
    records in front of it were found, and goes on with the name and the
    message of that record. *)
Theorem ordinal_is_the_load_position :
  forall store sock queryLine searchKey s,
    Forall readable store ->
    Z.of_nat (List.length store) <= INT_MAX ->
    extract_key queryLine = Some searchKey ->
    exists s' evs sent lines,
      respond store sock queryLine s = Ok tt s' /\
      trace s' = trace s ++ evs /\
      sent_bufs evs = lines ++ [["010"%char]] /\
      Forall2 (fun line p =>
                 nth_error store (fst p) = Some (snd p) /\
                 shows line (Z.of_nat (fst p) + 1)
                   (until_nul (name (snd p) ++ msg (snd p)))
                   (until_nul (msg (snd p))))
              lines sent /\
      (forall i r, In (i, r) sent -> sees searchKey r = true) /\
      (exists k, sent = firstn k (Scan store searchKey)) /\
      (accepts_all sock -> sent = Scan store searchKey).
Proof.
  intros store sock queryLine searchKey s Hread Hfit Hkey.
  destruct (@respond_scan store sock queryLine searchKey s Hread Hkey)
    as (s' & Hrun & Htrace).
  destruct (scan_sent store sock (nsend s) searchKey) as [k Hk].
  assert (Hin : forall i r, In (i, r) (firstn k (Scan store searchKey)) ->
                            nth_error store i = Some r /\ sees searchKey r = true).
  { intros i r H. apply in_firstn in H. unfold Scan in H.
    apply filter_In in H. destruct H as [H Hm]. apply in_enumerate in H.
    rewrite Nat.sub_0_r in H. tauto. }
  exists s', (scan_events store sock (nsend s) searchKey),
    (firstn k (Scan store searchKey)),
    (map seen_line (firstn k (Scan store searchKey))).
  split; [exact Hrun |]. split; [exact Htrace |].
  split; [now rewrite Hk, firstn_map |].
  split; [| split; [| split]].
  - apply Forall2_map_l. intros [i r] Hp. cbn [fst snd].
    destruct (Hin i r Hp) as [Hnth _]. split; [exact Hnth |].
    assert (i < List.length store)%nat by (apply nth_error_Some; congruence).
    rewrite <- recordCount_at_position by lia.
    apply seen_line_shows.
  - intros i r Hp. apply (Hin i r Hp).
  - exists k. reflexivity.
  - intros Hall.
    pose proof (scan_sent_all store (nsend s) searchKey Hall) as Hfull.
    rewrite Hfull in Hk. apply app_inv_tail in Hk.
    apply (f_equal (@List.length _)) in Hk.
    rewrite length_firstn, length_map in Hk.
    apply firstn_all2. lia.
Qed.

Lemma ordinal_is_the_load_position_witness :
  exists s' evs sent lines,
    respond Sample.store2 Sample.taking_all (Sample.line "Alex") Sample.start
      = Ok tt s' /\
    trace s' = trace Sample.start ++ evs /\
    sent_bufs evs = lines ++ [["010"%char]] /\
    Forall2 (fun line p =>
               nth_error Sample.store2 (fst p) = Some (snd p) /\
               shows line (Z.of_nat (fst p) + 1)
                 (until_nul (name (snd p) ++ msg (snd p)))
                 (until_nul (msg (snd p))))
            lines sent /\
    (forall i r, In (i, r) sent -> sees (lit "Alex") r = true) /\
    (exists k, sent = firstn k (Scan Sample.store2 (lit "Alex"))) /\
    (accepts_all Sample.taking_all -> sent = Scan Sample.store2 (lit "Alex")).
Proof.
  apply (@ordinal_is_the_load_position Sample.store2 Sample.taking_all
           (Sample.line "Alex") (lit "Alex") Sample.start).
  - exact store2_readable.
  - vm_compute. discriminate.
  - reflexivity.
Defined.

Lemma filter_all {A : Type} (f : A -> bool) (l : list A) :
  (forall x, f x = true) -> filter f l = l.
Proof.
  intros Hf. induction l as [| x l IH]; cbn; [reflexivity |].
  now rewrite Hf, IH.
Qed.

Lemma matches_empty_key r : matches [] r = true.
Proof. unfold matches, record_matches. now rewrite strstr_empty. Qed.




(** ** The loader (C4, C6) *)

(** C6.  For every file of exactly [n] blocks of 250 bytes that opens and
    reads without error, with memory at hand, the loader returns a store of
    [n] records, [n] being the file size divided by 250, in file order: the
    record at position [i] holds bytes [250 i] to [250 i + 49] of the file
    as its name and bytes [250 i + 50] to [250 i + 249] as its message.
    The list is built by [addAfter], modelled from the specification: each
    record is linked behind the node added before it. *)
Theorem whole_file_loads_in_file_order :
  forall bytes mem s n,
    never_fails mem ->
    List.length bytes = (250 * n)%nat ->
    exists store fp',
      load_database (Some (fresh_stream bytes false)) mem s = Ok (store, fp') s /\
      List.length store = n /\
      List.length store = (List.length bytes / 250)%nat /\
      (forall i, (i < n)%nat ->
         exists r,
           nth_error store i = Some r /\
           name r = firstn 50 (skipn (250 * i) bytes) /\
           msg r = firstn 200 (skipn (250 * i + 50) bytes) /\
           List.length (name r) = 50%nat /\
           List.length (msg r) = 200%nat).
Proof.
  intros bytes mem s n Hmem Hsize.
  destruct (@load_database_complete mem bytes s Hmem) as (fp' & Hrun & _).
  assert (Hdiv : (List.length bytes / RECORD_SIZE)%nat = n).
  { unfold RECORD_SIZE. rewrite Hsize, Nat.mul_comm. apply Nat.div_mul.
    discriminate. }
  exists (records_of bytes), fp'.
  split; [exact Hrun |].
  split; [now rewrite records_of_length |].
  split; [now rewrite records_of_length |].
  intros i Hi. exists (MdbRec_of_block (block_at bytes i)).
  split; [apply records_of_nth; now rewrite Hdiv |].
  unfold MdbRec_of_block, block_at, NAME_SIZE, RECORD_SIZE. cbn [name msg].
  assert (Hname : firstn 50 (firstn 250 (skipn (250 * i) bytes)) =
                  firstn 50 (skipn (250 * i) bytes)).
  { rewrite firstn_firstn. reflexivity. }
  assert (Hmsg : skipn 50 (firstn 250 (skipn (250 * i) bytes)) =
                 firstn 200 (skipn (250 * i + 50) bytes)).
  { rewrite skipn_firstn_comm, skipn_skipn.
    replace (50 + 250 * i)%nat with (250 * i + 50)%nat by lia. reflexivity. }
  rewrite Hname, Hmsg.
  split; [reflexivity |]. split; [reflexivity |].
  rewrite !length_firstn, !length_skipn, Hsize. split; nia.
Qed.

Lemma whole_file_loads_in_file_order_witness :
  exists store fp',
    load_database (Some (fresh_stream Sample.file2 false)) Sample.plenty Sample.start
      = Ok (store, fp') Sample.start /\
    List.length store = 2%nat /\
    List.length store = (List.length Sample.file2 / 250)%nat /\
    (forall i, (i < 2)%nat ->
       exists r,
         nth_error store i = Some r /\
         name r = firstn 50 (skipn (250 * i) Sample.file2) /\
         msg r = firstn 200 (skipn (250 * i + 50) Sample.file2) /\
         List.length (name r) = 50%nat /\
         List.length (msg r) = 200%nat).
Proof.
  apply (@whole_file_loads_in_file_order Sample.file2 Sample.plenty
           Sample.start 2).
  - exact plenty_never_fails.
  - vm_compute. reflexivity.
Defined.

(** C4, as stated, fails: a file of one complete block and two stray bytes
    has a size that is no multiple of 250, and the loader does not refuse
    it; it returns a store of one record. *)
Lemma ragged_file_is_not_refused :
  (List.length Sample.ragged mod RECORD_SIZE)%nat <> 0%nat /\
  ~ refuses Sample.ragged Sample.plenty Sample.start /\
  exists fp',
    load_database (Some (fresh_stream Sample.ragged false)) Sample.plenty Sample.start
      = Ok ([Sample.record "Ramya" "hi there"], fp') Sample.start.
Proof.
  split; [vm_compute; discriminate |]. split.
  - intros (status & s' & H). vm_compute in H. discriminate.
  - eexists. vm_compute. reflexivity.
Qed.

(** C4, amended.  For every file whose size is not a multiple of 250 and
    that opens and reads without error, with memory at hand, the loader
    succeeds: the short final read ends the loop like an end-of-file, the
    store holds the complete blocks, size / 250 of them rounded down, in
    file order, and the bytes behind the last complete block are dropped
    without a diagnostic. *)
Theorem ragged_file_loads_its_complete_blocks :
  forall bytes mem s,
    never_fails mem ->
    (List.length bytes mod RECORD_SIZE)%nat <> 0%nat ->
    ~ refuses bytes mem s /\
    exists store fp',
      load_database (Some (fresh_stream bytes false)) mem s = Ok (store, fp') s /\
      List.length store = (List.length bytes / RECORD_SIZE)%nat /\
      (forall i, (i < List.length bytes / RECORD_SIZE)%nat ->
                 nth_error store i = Some (MdbRec_of_block (block_at bytes i))).
Proof.
  intros bytes mem s Hmem _.
  destruct (@load_database_complete mem bytes s Hmem) as (fp' & Hrun & _).
  split.
  - intros (status & s' & H). congruence.
  - exists (records_of bytes), fp'.
    repeat split; [assumption | apply records_of_length | apply records_of_nth].
Qed.

Lemma ragged_file_loads_its_complete_blocks_witness :
  ~ refuses Sample.ragged Sample.plenty Sample.start /\
  exists store fp',
    load_database (Some (fresh_stream Sample.ragged false)) Sample.plenty Sample.start
      = Ok (store, fp') Sample.start /\
    List.length store = (List.length Sample.ragged / RECORD_SIZE)%nat /\
    (forall i, (i < List.length Sample.ragged / RECORD_SIZE)%nat ->
               nth_error store i =
               Some (MdbRec_of_block (block_at Sample.ragged i))).
Proof.
  apply (@ragged_file_loads_its_complete_blocks Sample.ragged Sample.plenty
           Sample.start).
  - exact plenty_never_fails.
  - vm_compute. discriminate.
Defined.

(** ** Failures of the peer (C5, C8) *)

(** C5, as stated, fails: with a peer that takes nothing, the first result
    line of the first query is not sent whole; the server still hands the
    blank line to [send], and it goes on to read and answer the second
    query line of the same connection. *)
Lemma failed_send_leaves_session_open :
  processClientRequest Sample.lost Sample.start =
    Ok tt {| trace := Sample.lost_trace; nsend := 4 |} /\
  ~ closes_after_failed_result Sample.lost_trace.
Proof.
  split; [vm_compute; reflexivity |].
  intros H.
  destruct (H (firstn 1 Sample.lost_trace) _ _ (skipn 2 Sample.lost_trace) eq_refl)
    as [Hsent _].
  - discriminate.
  - vm_compute. discriminate.
  - discriminate Hsent.
Qed.

(** The only buffer the sentinel hands to [send] is the blank line. *)
Lemma sentinel_no_result sock n before buf ret behind :
  sentinel sock n = before ++ EvSend buf ret :: behind -> buf = blank_line.
Proof.
  unfold sentinel. intros H.
  destruct before as [| e before]; cbn in H.
  - now injection H as <- _ _.
  - injection H as _ H. destruct (negb _).
    + destruct before as [| ? [| ? ?]]; discriminate.
    + destruct before; discriminate.
Qed.

(** C5, amended.  For every query line of a session, if a result line is
    not sent whole, the server logs the failure and makes no further
    attempt at a result line of that query (neither the same line again nor
    a later one): what follows is the diagnostic and the blank-line
    sentinel.  The process is not terminated and the session is not
    closed: the loop continues with the next read from the client. *)
Theorem failed_result_send_ends_the_results_only :
  forall store sock clientInput queryLine fp' searchKey s,
    Forall well_formed store ->
    fgets QUERY_LINE_SIZE clientInput = (Some queryLine, fp') ->
    extract_key queryLine = Some searchKey ->
    exists s' evs,
      respond store sock queryLine (log (EvRecv queryLine) s) = Ok tt s' /\
      trace s' = trace s ++ EvRecv queryLine :: evs /\
      (forall before buf ret behind,
          evs = before ++ EvSend buf ret :: behind ->
          buf <> blank_line ->
          ret <> Z.of_nat (List.length buf) ->
          exists n, behind = EvPerror "send() failed" :: sentinel sock n) /\
      query_loop store sock clientInput s = query_loop store sock fp' s'.
Proof.
  intros store sock clientInput queryLine fp' searchKey s Hwf Hline Hkey.
  destruct (@respond_events store sock queryLine searchKey
              (log (EvRecv queryLine) s) Hwf Hkey) as (s' & Hrun & Htrace).
  cbn [log trace nsend] in Htrace.
  exists s', (reply_events store sock (nsend s) searchKey).
  split; [assumption |]. split; [| split].
  - rewrite Htrace, <- app_assoc. reflexivity.
  - intros before buf ret behind Hsplit Hresult Hfail.
    unfold reply_events in Hsplit. cbv zeta in Hsplit.
    apply app_eq_app in Hsplit.
    destruct Hsplit as [mid [[Hatt Hbehind] | [Hbefore Hsentinel]]].
    + destruct mid as [| e mid]; cbn in Hbehind.
      * symmetry in Hbehind.
        apply (@sentinel_no_result sock _ []) in Hbehind. contradiction.
      * injection Hbehind as <- ->.
        apply attempted_failure in Hatt; [| assumption]. subst mid.
        eexists. reflexivity.
    + apply sentinel_no_result in Hsentinel. contradiction.
  - rewrite (query_loop_step store sock clientInput s), Hline, Hrun. reflexivity.
Qed.

Lemma failed_result_send_ends_the_results_only_witness :
  exists s' evs,
    respond Sample.store2 Sample.gone (Sample.line "y")
      (log (EvRecv (Sample.line "y")) Sample.start) = Ok tt s' /\
    trace s' = trace Sample.start ++ EvRecv (Sample.line "y") :: evs /\
    (forall before buf ret behind,
        evs = before ++ EvSend buf ret :: behind ->
        buf <> blank_line ->
        ret <> Z.of_nat (List.length buf) ->
        exists n, behind = EvPerror "send() failed" :: sentinel Sample.gone n) /\
    query_loop Sample.store2 Sample.gone
      (fresh_stream (Sample.line "y" ++ Sample.line "Alex") false) Sample.start =
    query_loop Sample.store2 Sample.gone
      (advance (fresh_stream (Sample.line "y" ++ Sample.line "Alex") false)
               (Sample.line "Alex")) s'.
Proof.
  apply (@failed_result_send_ends_the_results_only Sample.store2 Sample.gone
           (fresh_stream (Sample.line "y" ++ Sample.line "Alex") false)
           (Sample.line "y") _ (lit "y") Sample.start).
  - exact store2_well_formed.
  - reflexivity.
  - reflexivity.
Defined.

(** C8.  For every session that got as far as its query loop, over
    well-formed records and text input, the end of the client's input,
    be it a close or a read error, ends that session only:
    [processClientRequest] returns (after [perror] in the case of an
    error), the process does not exit, and the accept loop goes on to the
    next arrival. *)
Theorem read_end_closes_only_the_session :
  forall c tr store dbfile s1 later,
    load_database (database c) (mem c)
      {| trace := tr ++ [EvConnected (peer c)]; nsend := 0 |} =
      Ok (store, dbfile) s1 ->
    fdopen_ok c = true ->
    Forall well_formed store ->
    ~ In NUL (client_bytes c) ->
    exists s',
      processClientRequest c
        {| trace := tr ++ [EvConnected (peer c)]; nsend := 0 |} = Ok tt s' /\
      (client_broken c = true ->
       exists before, trace s' = before ++ [EvPerror "fgets() failed"]) /\
      accept_loop (Accepted c :: later) tr =
      accept_loop later (trace s' ++ [EvTerminated (peer c)]).
Proof.
  intros c tr store dbfile s1 later Hload Hfd Hwf Hclean.
  destruct (@query_loop_returns store (sock c) Hwf
              (fresh_stream (client_bytes c) (client_broken c)) s1 Hclean)
    as (fp' & s2 & Hrun & Herr).
  cbn [fresh_stream err_ind broken orb] in Herr.
  assert (Hsession :
    processClientRequest c {| trace := tr ++ [EvConnected (peer c)]; nsend := 0 |} =
    Ok tt (if client_broken c then perror "fgets() failed" s2 else s2)).
  { unfold processClientRequest. rewrite Hload, Hfd. cbn [negb].
    rewrite Hrun, Herr. destruct (client_broken c); reflexivity. }
  eexists. split; [exact Hsession |]. split.
  - intros ->. exists (trace s2). reflexivity.
  - cbn [accept_loop]. rewrite Hsession. reflexivity.
Qed.

Lemma read_end_closes_only_the_session_witness :
  exists s',
    processClientRequest Sample.reset
      {| trace := [] ++ [EvConnected (peer Sample.reset)]; nsend := 0 |} = Ok tt s' /\
    (client_broken Sample.reset = true ->
     exists before, trace s' = before ++ [EvPerror "fgets() failed"]) /\
    accept_loop (Accepted Sample.reset :: [Accepted Sample.lost]) [] =
    accept_loop [Accepted Sample.lost]
      (trace s' ++ [EvTerminated (peer Sample.reset)]).
Proof.
  apply (@read_end_closes_only_the_session Sample.reset [] Sample.store2
           (run_dry (advance (fresh_stream Sample.file2 false) []))
           {| trace := [EvConnected (peer Sample.reset)]; nsend := 0 |}
           [Accepted Sample.lost]).
  - vm_compute. reflexivity.
  - reflexivity.
  - exact store2_well_formed.
  - apply no_nul. vm_compute. reflexivity.
Defined.

(** * Further properties of the server *)

(** ** Failures of the loader *)

Lemma div_positive n : (RECORD_SIZE <= n)%nat <-> (0 < n / RECORD_SIZE)%nat.
Proof.
  split; intros H.
  - apply Nat.div_str_pos. unfold RECORD_SIZE in *. lia.
  - destruct (Nat.lt_ge_cases n RECORD_SIZE) as [Hlt | Hge]; [| assumption].
    rewrite Nat.div_small in H by assumption. lia.
Qed.

Lemma div_after_block n :
  (RECORD_SIZE <= n)%nat ->
  (n / RECORD_SIZE = S ((n - RECORD_SIZE) / RECORD_SIZE))%nat.
Proof.
  intros H.
  replace n with ((n - RECORD_SIZE) + 1 * RECORD_SIZE)%nat at 1 by lia.
  rewrite Nat.div_add by discriminate. lia.
Qed.

(** The first allocation that fails ends the loop in [terminate], with
    the diagnostic of the step that failed. *)
Lemma load_loop_out_of_memory mem : forall k filePointer recordList s,
  (k < List.length (pending filePointer) / RECORD_SIZE)%nat ->
  (forall j, (j < k)%nat ->
             malloc_ok mem (List.length recordList + j) = true /\
             node_ok mem (List.length recordList + j) = true) ->
  malloc_ok mem (List.length recordList + k) = false \/
  node_ok mem (List.length recordList + k) = false ->
  load_loop mem filePointer recordList (last_node recordList) s =
  Exit 1 (perror (if malloc_ok mem (List.length recordList + k)
                  then "Failed to add record to list"
                  else "Memory allocation failed") s).
Proof.
  induction k as [| k IH]; intros fp acc s Hk Hok Hbad;
    rewrite load_loop_step; unfold fread_record;
    assert (Hle : (RECORD_SIZE <= List.length (pending fp))%nat)
      by (apply div_positive; lia);
    apply Nat.leb_le in Hle; rewrite Hle; apply Nat.leb_le in Hle.
  - rewrite Nat.add_0_r in *.
    destruct (malloc_ok mem (List.length acc)) eqn:Em; cbn [negb].
    + destruct Hbad as [Hbad | Hbad]; [discriminate |]. rewrite Hbad.
      reflexivity.
    + reflexivity.
  - destruct (Hok O) as [Hm Hn]; [lia |]. rewrite Nat.add_0_r in Hm, Hn.
    rewrite Hm, Hn. cbn [negb].
    rewrite addAfter_last, <- last_node_app with (data :=
      MdbRec_of_block (firstn RECORD_SIZE (pending fp))).
    replace (List.length acc + S k)%nat with
      (List.length (acc ++ [MdbRec_of_block (firstn RECORD_SIZE (pending fp))]) + k)%nat
      by (rewrite length_app; cbn [List.length]; lia).
    apply IH.
    + unfold advance; cbn [pending]. rewrite length_skipn.
      rewrite (div_after_block Hle) in Hk. lia.
    + intros j Hj. rewrite length_app. cbn [List.length].
      replace (List.length acc + 1 + j)%nat with (List.length acc + S j)%nat by lia.
      apply Hok. lia.
    + rewrite length_app. cbn [List.length].
      replace (List.length acc + 1 + k)%nat with (List.length acc + S k)%nat by lia.
      exact Hbad.
Qed.

(** X2.  A read error on the database file is fatal to the whole server:
    whatever the file delivered before the error, the records read so far
    are not used, the client is sent nothing and is not read from, the
    process exits with status 1 after the diagnostic, and no later arrival
    is served. *)
Theorem database_read_error_ends_the_server :
  forall c bytes later tr,
    database c = Some (fresh_stream bytes true) ->
    never_fails (mem c) ->
    accept_loop (Accepted c :: later) tr =
    Exited 1 (tr ++ [EvConnected (peer c); EvPerror "Error reading database file"]).
Proof.
  intros c bytes later tr Hdb Hmem. cbn [accept_loop].
  unfold processClientRequest, load_database. rewrite Hdb.
  destruct (@load_loop_complete (mem c) Hmem _ (fresh_stream bytes true) []
              {| trace := tr ++ [EvConnected (peer c)]; nsend := 0 |} eq_refl)
    as (fp' & Hrun & _ & Herr).
  change (last_node []) with (@None nat) in Hrun. rewrite Hrun.
  cbn [fresh_stream err_ind broken orb] in Herr. unfold ferror. rewrite Herr.
  unfold terminate, perror, log. cbn [trace]. now rewrite <- app_assoc.
Qed.

Lemma database_read_error_ends_the_server_witness :
  accept_loop
    (Accepted {| peer := "192.0.2.7";
                 database := Some (fresh_stream Sample.ragged true);
                 mem := Sample.plenty;
                 fdopen_ok := true;
                 client_bytes := Sample.line "Ramya";
                 client_broken := false;
                 sock := Sample.taking_all |}
       :: [Accepted Sample.reset]) [] =
  Exited 1 ([] ++ [EvConnected "192.0.2.7";
                   EvPerror "Error reading database file"]).
Proof.
  apply (@database_read_error_ends_the_server
           {| peer := "192.0.2.7";
              database := Some (fresh_stream Sample.ragged true);
              mem := Sample.plenty;
              fdopen_ok := true;
              client_bytes := Sample.line "Ramya";
              client_broken := false;
              sock := Sample.taking_all |}
           Sample.ragged [Accepted Sample.reset] []).
  - reflexivity.
  - exact plenty_never_fails.
Defined.

(** X3.  Running out of memory while loading is fatal to the whole server:
    if the file holds more than [k] complete blocks and the [k]-th record
    is the first for which the copy or the list node cannot be allocated,
    the process exits with status 1 after the diagnostic of the step that
    failed: "Memory allocation failed" when the copy cannot be had,
    "Failed to add record to list" when the copy is there and the node is
    not.  The client is sent nothing and no later arrival is served. *)
Theorem allocation_failure_ends_the_server :
  forall c filePointer k later tr,
    database c = Some filePointer ->
    (k < List.length (pending filePointer) / RECORD_SIZE)%nat ->
    (forall j, (j < k)%nat ->
               malloc_ok (mem c) j = true /\ node_ok (mem c) j = true) ->
    malloc_ok (mem c) k = false \/ node_ok (mem c) k = false ->
    accept_loop (Accepted c :: later) tr =
    Exited 1 (tr ++ [EvConnected (peer c);
                     EvPerror (if malloc_ok (mem c) k
                               then "Failed to add record to list"
                               else "Memory allocation failed")]).
Proof.
  intros c fp k later tr Hdb Hk Hok Hbad. cbn [accept_loop].
  unfold processClientRequest, load_database. rewrite Hdb.
  pose proof (@load_loop_out_of_memory (mem c) k fp []
                {| trace := tr ++ [EvConnected (peer c)]; nsend := 0 |} Hk Hok Hbad)
    as Hrun.
  change (last_node []) with (@None nat) in Hrun. rewrite Hrun.
  cbn [List.length Nat.add].
  unfold perror, log. cbn [trace]. now rewrite <- app_assoc.
Qed.

Lemma allocation_failure_ends_the_server_witness :
  accept_loop
    (Accepted {| peer := "192.0.2.7";
                 database := Some (fresh_stream Sample.file2 false);
                 mem := {| malloc_ok := fun _ => true;
                           node_ok := fun k => Nat.eqb k 0 |};
                 fdopen_ok := true;
                 client_bytes := Sample.line "Ramya";
                 client_broken := false;
                 sock := Sample.taking_all |}
       :: [Accepted Sample.reset]) [] =
  Exited 1 ([] ++ [EvConnected "192.0.2.7";
                   EvPerror "Failed to add record to list"]).
Proof.
  apply (@allocation_failure_ends_the_server
           {| peer := "192.0.2.7";
              database := Some (fresh_stream Sample.file2 false);
              mem := {| malloc_ok := fun _ => true;
                        node_ok := fun k => Nat.eqb k 0 |};
              fdopen_ok := true;
              client_bytes := Sample.line "Ramya";
              client_broken := false;
              sock := Sample.taking_all |}
           (fresh_stream Sample.file2 false) 1 [Accepted Sample.reset] []).
  - reflexivity.
  - vm_compute. lia.
  - intros j Hj. assert (j = O) by lia. subst j. split; reflexivity.
  - right. reflexivity.
Defined.

(** ** The file layout *)

Lemma MdbRec_of_image r : sized r -> MdbRec_of_block (image r) = r.
Proof.
  intros [Hn _]. unfold MdbRec_of_block, image. destruct r as [nm ms].
  cbn [name msg] in *. f_equal.
  - rewrite firstn_app, <- Hn, firstn_all, Nat.sub_diag. cbn. apply app_nil_r.
  - rewrite skipn_app, <- Hn, skipn_all, Nat.sub_diag. reflexivity.
Qed.

Lemma image_length r : sized r -> List.length (image r) = RECORD_SIZE.
Proof.
  intros [Hn Hm]. unfold image. rewrite length_app, Hn, Hm. reflexivity.
Qed.

Lemma records_of_images store :
  Forall sized store -> records_of (flat_map image store) = store.
Proof.
  induction 1 as [| r store Hr _ IH]; [reflexivity |].
  cbn [flat_map]. pose proof (image_length Hr) as Hlen.
  rewrite records_of_block by (rewrite length_app; lia).
  rewrite firstn_app, <- Hlen, firstn_all, Nat.sub_diag.
  rewrite skipn_app, skipn_all, Nat.sub_diag. cbn [firstn skipn app].
  rewrite app_nil_r, MdbRec_of_image, IH by assumption. reflexivity.
Qed.

(** X4.  The loader inverts the file layout: a file made of the images of
    the records of a store, name array then message array, one after the
    other, loads back as that store, whatever the arrays hold (terminated
    or not). *)
Theorem stored_records_load_back :
  forall store mem s,
    Forall sized store ->
    never_fails mem ->
    exists fp',
      load_database (Some (fresh_stream (flat_map image store) false)) mem s =
      Ok (store, fp') s.
Proof.
  intros store mem s Hsized Hmem.
  destruct (@load_database_complete mem (flat_map image store) s Hmem)
    as (fp' & Hrun & _).
  exists fp'. now rewrite records_of_images in Hrun.
Qed.

Lemma stored_records_load_back_witness :
  exists fp',
    load_database
      (Some (fresh_stream (flat_map image Sample.store2) false))
      Sample.plenty Sample.start =
    Ok (Sample.store2, fp') Sample.start.
Proof.
  apply (@stored_records_load_back Sample.store2 Sample.plenty Sample.start).
  - unfold Sample.store2. repeat apply Forall_cons; try apply Forall_nil;
      (split; vm_compute; reflexivity).
  - exact plenty_never_fails.
Defined.

(** ** The whole session *)

Section WholeSession.

(** The reply to one line, with the state it leaves. *)
Lemma respond_exact store sock queryLine searchKey s :
  Forall well_formed store ->
  extract_key queryLine = Some searchKey ->
  respond store sock queryLine s =
  Ok tt {| trace := trace s ++ reply_events store sock (nsend s) searchKey;
           nsend := nsend s +
                    List.length (sent_bufs (reply_events store sock (nsend s) searchKey)) |}.
Proof.
  intros Hwf Hkey. unfold respond. rewrite Hkey.
  change 1 with (recordCount_at 0).
  rewrite search_loop_events by assumption. cbv zeta.
  fold (Search store searchKey). unfold reply_events, sentinel.
  cbn [send trace nsend blank_line List.length Z.of_nat Pos.of_succ_nat].
  set (evs := attempted sock (nsend s) (map line_of (Search store searchKey))).
  rewrite sent_bufs_app, length_app.
  destruct (negb (sock (nsend s + List.length (sent_bufs evs))%nat blank_line =? 1));
    f_equal; unfold perror, log; cbn [trace nsend sent_bufs List.length];
    (apply state_eq; [now rewrite <- !app_assoc | lia]).
Qed.

Lemma read_line_shape room : forall bytes line rest at_end,
  read_line room bytes = (line, rest, at_end) ->
  (List.length line <= room)%nat /\
  ~ In LF (removelast line) /\
  (at_end = true -> ~ In LF line).
Proof.
  induction room as [| room IH]; intros bytes line rest at_end H; cbn in H.
  - inversion H; subst. cbn. repeat split; [lia | tauto | discriminate].
  - destruct bytes as [| c bs].
    + inversion H; subst. cbn. repeat split; [lia | tauto | tauto].
    + destruct (Ascii.eqb c LF) eqn:Ec.
      * inversion H; subst. cbn. repeat split; [lia | tauto | discriminate].
      * destruct (read_line room bs) as [[l r] e] eqn:E.
        inversion H; subst. destruct (IH _ _ _ _ E) as (Hlen & Hlast & Hend).
        apply Ascii.eqb_neq in Ec.
        repeat split.
        -- cbn. lia.
        -- destruct l as [| d l]; [cbn; tauto |].
           cbn [removelast]. intros [Hc | Hin]; [congruence | tauto].
        -- intros He [Hc | Hin]; [congruence | exact (Hend He Hin)].
Qed.

(** Every line [fgets] delivers has the shape of a line. *)
Lemma fgets_line_shape size fp line fp' :
  (2 <= size)%nat ->
  fgets size fp = (Some line, fp') ->
  line_shape size line.
Proof.
  intros Hsize H. destruct (fgets_some _ Hsize H) as (Hne & _).
  unfold fgets in H.
  destruct (read_line (size - 1) (pending fp)) as [[l r] e] eqn:E.
  destruct (read_line_shape _ _ E) as (Hlen & Hlast & _).
  assert (line = l).
  { destruct e; [| congruence].
    destruct (broken fp); [discriminate |]. destruct l; congruence. }
  subst l. repeat split; [assumption | lia | assumption].
Qed.

(** What is left unread when [fgets] returns the null pointer: nothing at
    the end of the input, an unfinished line on a read error. *)
Lemma fgets_none_lost size fp fp' :
  fgets size fp = (None, fp') ->
  ~ In LF (pending fp) /\ (broken fp = false -> pending fp = []).
Proof.
  unfold fgets.
  destruct (read_line (size - 1) (pending fp)) as [[l r] e] eqn:E.
  destruct (read_line_accounts _ _ E) as (Hsplit & Hend & _).
  destruct (read_line_shape _ _ E) as (_ & _ & Hclean).
  destruct e; [| discriminate].
  rewrite Hsplit, (Hend eq_refl), app_nil_r.
  destruct (broken fp).
  - intros _. split; [auto | discriminate].
  - destruct l; [| discriminate]. intros _. split; [cbn; tauto | reflexivity].
Qed.

(** The session as a whole: the input is cut into lines, each line is
    answered, and the loop returns. *)
Lemma query_loop_session store sock :
  Forall well_formed store ->
  forall n clientInput s,
    List.length (pending clientInput) = n ->
    ~ In NUL (pending clientInput) ->
    exists lines lost fp' s',
      query_loop store sock clientInput s = Ok fp' s' /\
      trace s' = trace s ++ session_events store sock (nsend s) lines /\
      pending clientInput = List.concat lines ++ lost /\
      Forall (line_shape QUERY_LINE_SIZE) lines /\
      Forall (fun l => extract_key l <> None) lines /\
      ~ In LF lost /\
      (broken clientInput = false -> lost = []).
Proof.
  intros Hwf. induction n as [n IH] using lt_wf_ind. intros fp s Hn Hclean.
  rewrite query_loop_step.
  destruct (fgets QUERY_LINE_SIZE fp) as [[line |] fp1] eqn:E.
  - pose proof (fgets_shrinks _ E) as Hlt. rewrite Hn in Hlt.
    assert (Hsize : (2 <= QUERY_LINE_SIZE)%nat) by (unfold QUERY_LINE_SIZE; lia).
    destruct (fgets_some _ Hsize E) as (Hne & Hsplit & Hb & _).
    pose proof (fgets_line_shape _ Hsize E) as Hshape.
    rewrite Hsplit in Hclean.
    destruct line as [| c rest]; [congruence |].
    destruct (@extract_key_defined c rest) as [key Hkey].
    { intros ->. apply Hclean. now left. }
    rewrite (@respond_exact store sock (c :: rest) key (log (EvRecv (c :: rest)) s) Hwf Hkey).
    cbn [log trace nsend].
    match goal with
    | |- context [query_loop store sock fp1 ?st] =>
        destruct (IH _ Hlt fp1 st eq_refl) as
          (lines & lost & fp' & s' & Hrun & Htrace & Hrest & Hshapes & Hkeys & Hlost & Heof)
    end.
    { intros H. apply Hclean, in_or_app. now right. }
    exists ((c :: rest) :: lines), lost, fp', s'.
    cbn [trace nsend] in Htrace.
    split; [exact Hrun |]. split; [| split; [| split; [| split; [| split]]]].
    + rewrite Htrace. cbn [session_events]. rewrite Hkey. cbv zeta.
      rewrite <- !app_assoc. reflexivity.
    + rewrite Hsplit, Hrest. cbn [List.concat]. now rewrite <- app_assoc.
    + constructor; assumption.
    + constructor; [congruence | assumption].
    + exact Hlost.
    + intros Hnb. apply Heof. congruence.
  - destruct (fgets_none_lost _ _ E) as (Hlost & Heof).
    exists [], (pending fp), fp1, s. cbn [session_events List.concat app].
    rewrite app_nil_r. repeat split; try assumption; constructor.
Qed.

Lemma received_reply store sock n key : received (reply_events store sock n key) = [].
Proof.
  unfold reply_events, sentinel. cbv zeta.
  generalize (map line_of (Search store key)). intros bufs.
  generalize (n + List.length (sent_bufs (attempted sock n bufs)))%nat. intros m.
  revert n. induction bufs as [| b bufs IH]; intros n; cbn.
  - destruct (negb _); reflexivity.
  - destruct (negb (sock n b =? _)); [cbn; destruct (negb _); reflexivity | apply IH].
Qed.

Lemma received_app evs evs' : received (evs ++ evs') = received evs ++ received evs'.
Proof.
  induction evs as [| e evs IH]; [reflexivity |].
  destruct e; cbn; rewrite IH; reflexivity.
Qed.

Lemma received_session store sock lines : forall n,
  Forall (fun l => extract_key l <> None) lines ->
  received (session_events store sock n lines) = lines.
Proof.
  induction lines as [| l lines IH]; intros n Hk; [reflexivity |].
  inversion Hk as [| ? ? Hl Hls]; subst. cbn [session_events].
  destruct (extract_key l) as [key |]; [| congruence]. cbv zeta.
  cbn [received]. rewrite received_app, received_reply, IH by assumption.
  reflexivity.
Qed.

Lemma blank_count_reply store sock n key :
  count_occ (list_eq_dec ascii_dec)
    (sent_bufs (reply_events store sock n key)) blank_line = 1%nat.
Proof.
  unfold reply_events. cbv zeta. rewrite sent_bufs_app, sentinel_sent.
  destruct (attempted_prefix sock (map line_of (Search store key)) n) as [k ->].
  rewrite count_occ_app.
  rewrite (proj1 (count_occ_not_In _ _ _)).
  - cbn. destruct (list_eq_dec ascii_dec blank_line blank_line); [reflexivity | congruence].
  - intros Hin. apply in_firstn, in_map_iff in Hin.
    destruct Hin as (p & Hp & _). exact (line_of_not_blank p Hp).
Qed.

Lemma blank_count_session store sock lines : forall n,
  Forall (fun l => extract_key l <> None) lines ->
  count_occ (list_eq_dec ascii_dec)
    (sent_bufs (session_events store sock n lines)) blank_line =
  List.length lines.
Proof.
  induction lines as [| l lines IH]; intros n Hk; [reflexivity |].
  inversion Hk as [| ? ? Hl Hls]; subst. cbn [session_events].
  destruct (extract_key l) as [key |]; [| congruence]. cbv zeta.
  cbn [sent_bufs]. rewrite sent_bufs_app, count_occ_app, blank_count_reply, IH
    by assumption.
  reflexivity.
Qed.

End WholeSession.

(** X5.  A session reads its input to the end and loses nothing of it:
    over well-formed records and text input, the query lines the loop
    handles, put end to end, are the bytes the client wrote, except for an
    unfinished last line (one without newline) that is dropped when the
    input ends in a read error.  Every line handled is non-empty, shorter
    than the 1000-byte line buffer, and holds a newline nowhere but at its
    end. *)
Theorem session_reads_the_whole_input :
  forall store sock bytes fails s,
    Forall well_formed store ->
    ~ In NUL bytes ->
    exists fp' s' evs lost,
      query_loop store sock (fresh_stream bytes fails) s = Ok fp' s' /\
      trace s' = trace s ++ evs /\
      bytes = List.concat (received evs) ++ lost /\
      Forall (line_shape QUERY_LINE_SIZE) (received evs) /\
      ~ In LF lost /\
      (fails = false -> lost = []).
Proof.
  intros store sock bytes fails s Hwf Hclean.
  destruct (@query_loop_session store sock Hwf _ (fresh_stream bytes fails) s
              eq_refl Hclean)
    as (lines & lost & fp' & s' & Hrun & Htrace & Hsplit & Hshapes & Hkeys & Hlost & Heof).
  exists fp', s', (session_events store sock (nsend s) lines), lost.
  rewrite received_session by assumption.
  repeat split; assumption.
Qed.

Lemma session_reads_the_whole_input_witness :
  exists fp' s' evs lost,
    query_loop Sample.store2 Sample.gone
      (fresh_stream (Sample.line "y" ++ lit "Al") true) Sample.start = Ok fp' s' /\
    trace s' = trace Sample.start ++ evs /\
    Sample.line "y" ++ lit "Al" = List.concat (received evs) ++ lost /\
    Forall (line_shape QUERY_LINE_SIZE) (received evs) /\
    ~ In LF lost /\
    (true = false -> lost = []).
Proof.
  apply (@session_reads_the_whole_input Sample.store2 Sample.gone
           (Sample.line "y" ++ lit "Al") true Sample.start).
  - exact store2_well_formed.
  - apply no_nul. vm_compute. reflexivity.
Defined.

(** X6.  Over a whole session there is one end-of-results sentinel per
    query line: the number of times the blank line is handed to [send]
    equals the number of lines read, whatever the peer does with the
    replies. *)
Theorem one_sentinel_per_line_read :
  forall store sock bytes fails s,
    Forall well_formed store ->
    ~ In NUL bytes ->
    exists fp' s' evs,
      query_loop store sock (fresh_stream bytes fails) s = Ok fp' s' /\
      trace s' = trace s ++ evs /\
      count_occ (list_eq_dec ascii_dec) (sent_bufs evs) blank_line =
      List.length (received evs).
Proof.
  intros store sock bytes fails s Hwf Hclean.
  destruct (@query_loop_session store sock Hwf _ (fresh_stream bytes fails) s
              eq_refl Hclean)
    as (lines & lost & fp' & s' & Hrun & Htrace & _ & _ & Hkeys & _).
  exists fp', s', (session_events store sock (nsend s) lines).
  rewrite received_session, blank_count_session by assumption.
  repeat split; assumption.
Qed.

Lemma one_sentinel_per_line_read_witness :
  exists fp' s' evs,
    query_loop Sample.store2 Sample.gone
      (fresh_stream (Sample.line "y" ++ Sample.line "Alex") false) Sample.start
      = Ok fp' s' /\
    trace s' = trace Sample.start ++ evs /\
    count_occ (list_eq_dec ascii_dec) (sent_bufs evs) blank_line =
    List.length (received evs).
Proof.
  apply (@one_sentinel_per_line_read Sample.store2 Sample.gone
           (Sample.line "y" ++ Sample.line "Alex") false Sample.start).
  - exact store2_well_formed.
  - apply no_nul. vm_compute. reflexivity.
Defined.

(** ** Order of the results *)





(** ** The buffers are large enough *)

Section Buffers.

Lemma nb_digits_double d :
  (Decimal.nb_digits (Decimal.Little.double d) <= S (Decimal.nb_digits d))%nat /\
  (Decimal.nb_digits (Decimal.Little.succ_double d) <= S (Decimal.nb_digits d))%nat.
Proof. induction d; cbn; lia. Qed.

Lemma nb_digits_little p :
  (Decimal.nb_digits (Pos.to_little_uint p) <= Pos.size_nat p)%nat.
Proof.
  induction p as [p IH | p IH |]; cbn [Pos.to_little_uint Pos.size_nat].
  - pose proof (nb_digits_double (Pos.to_little_uint p)). lia.
  - pose proof (nb_digits_double (Pos.to_little_uint p)). lia.
  - cbn. lia.
Qed.

Lemma size_nat_bound p : forall n,
  Z.pos p < 2 ^ Z.of_nat n -> (Pos.size_nat p <= n)%nat.
Proof.
  induction p as [p IH | p IH |]; intros n H; destruct n as [| n];
    try (cbn in H; lia); cbn [Pos.size_nat].
  - rewrite Nat2Z.inj_succ, Z.pow_succ_r in H by lia.
    apply le_n_S, IH. lia.
  - rewrite Nat2Z.inj_succ, Z.pow_succ_r in H by lia.
    apply le_n_S, IH. lia.
  - lia.
Qed.

Lemma string_of_uint_length d :
  String.length (NilEmpty.string_of_uint d) = Decimal.nb_digits d.
Proof. induction d; cbn; congruence. Qed.

Lemma list_ascii_length str :
  List.length (list_ascii_of_string str) = String.length str.
Proof. induction str; cbn; congruence. Qed.

Lemma uint_text_length p :
  Z.pos p <= 2 ^ 31 ->
  (String.length (NilZero.string_of_uint (Pos.to_uint p)) <= 32)%nat.
Proof.
  intros H. unfold NilZero.string_of_uint.
  assert (Hd : (Decimal.nb_digits (Pos.to_uint p) <= 32)%nat).
  { unfold Pos.to_uint. rewrite DecimalFacts.nb_digits_rev.
    etransitivity; [apply nb_digits_little |].
    apply size_nat_bound. change (2 ^ Z.of_nat 32) with (2 ^ 32). lia. }
  destruct (Pos.to_uint p);
    try (rewrite string_of_uint_length; exact Hd).
  cbn. lia.
Qed.

(** An [int] prints in at most 33 characters, sign included; the field of
    [%4d] is then at most that wide. *)
Lemma fmt_4d_length z :
  - 2 ^ 31 <= z <= INT_MAX -> (List.length (fmt_4d z) <= 33)%nat.
Proof.
  unfold INT_MAX. intros Hz. unfold fmt_4d, decimal.
  rewrite length_app, repeat_length, list_ascii_length.
  assert (Hlen : (String.length (NilZero.string_of_int (Z.to_int z)) <= 33)%nat).
  { destruct z as [| p | p]; cbn [Z.to_int NilZero.string_of_int String.length].
    - cbn. lia.
    - pose proof (@uint_text_length p). lia.
    - pose proof (@uint_text_length p). lia. }
  lia.
Qed.

Lemma wrap_int_range z : - 2 ^ 31 <= wrap_int z <= INT_MAX.
Proof.
  unfold wrap_int, INT_MAX.
  pose proof (Z.mod_pos_bound (z + 2 ^ 31) (2 ^ 32)). lia.
Qed.

Lemma recordCount_at_range i : - 2 ^ 31 <= recordCount_at i <= INT_MAX.
Proof.
  destruct i as [| i]; [unfold INT_MAX; cbn; lia |].
  change (recordCount_at (S i)) with (wrap_int (recordCount_at i + 1)).
  apply wrap_int_range.
Qed.

(** A string found inside an object is shorter than the object. *)
Lemma c_str_length mem : forall text,
  c_str mem = Some text -> (List.length text < List.length mem)%nat.
Proof.
  induction mem as [| c mem IH]; intros text H; cbn in H; [discriminate |].
  destruct (is_nul c); [injection H as <-; cbn; lia |].
  destruct (c_str mem) as [t |]; [| discriminate].
  injection H as <-. specialize (IH t eq_refl). cbn. lia.
Qed.

End Buffers.

(** X8.  [sprintf] never writes past [resultBuffer]: for every 250-byte
    block of a file whose strings the search can read, and at every
    position of the list, the formatted result line with its terminator
    fits the 1000 bytes of the buffer, even when the name runs on into the
    message. *)
Theorem result_line_fits_the_buffer :
  forall block i nm ms,
    List.length block = RECORD_SIZE ->
    name_str (MdbRec_of_block block) = Some nm ->
    msg_str (MdbRec_of_block block) = Some ms ->
    (List.length (result_line (recordCount_at i) nm ms) + 1 <= RESULT_BUFFER_SIZE)%nat.
Proof.
  intros block i nm ms Hsize Hnm Hms.
  apply c_str_length in Hnm. apply c_str_length in Hms.
  unfold MdbRec_of_block in *. cbn [name msg] in *.
  rewrite firstn_skipn in Hnm. rewrite length_skipn in Hms.
  pose proof (fmt_4d_length (recordCount_at_range i)) as Hd.
  unfold result_line. rewrite !length_app.
  unfold RECORD_SIZE, NAME_SIZE, RESULT_BUFFER_SIZE in *.
  change (List.length (lit ": {")) with 3%nat.
  change (List.length (lit "} said {")) with 8%nat.
  cbn [List.length]. lia.
Qed.

Lemma result_line_fits_the_buffer_witness :
  (List.length
     (result_line (recordCount_at 1) (lit "Alex") (lit "bye now")) + 1
   <= RESULT_BUFFER_SIZE)%nat.
Proof.
  apply (@result_line_fits_the_buffer (Sample.block "Alex" "bye now") 1
           (lit "Alex") (lit "bye now")).
  - vm_compute. reflexivity.
  - vm_compute. reflexivity.
  - vm_compute. reflexivity.
Defined.

(** ** More on the search key *)

Section KeyFacts.

Lemma until_nul_id text : ~ In NUL text -> until_nul text = text.
Proof.
  induction text as [| c text IH]; cbn; intros H; [reflexivity |].
  destruct (is_nul c) eqn:E.
  - apply is_nul_true in E. subst. tauto.
  - f_equal. apply IH. tauto.
Qed.

Lemma in_removelast {A : Type} (x : A) (l : list A) : In x (removelast l) -> In x l.
Proof.
  induction l as [| a l IH]; [tauto |].
  destruct l as [| b l]; [cbn; tauto |].
  cbn [removelast]. intros [H | H]; [now left | right; apply IH, H].
Qed.

Lemma chomp_id text : ~ In LF text -> chomp text = text.
Proof.
  intros H. unfold chomp. destruct (Ascii.eqb (last text NUL) LF) eqn:E; [| reflexivity].
  apply Ascii.eqb_eq in E. destruct text as [| c text]; [discriminate E |].
  exfalso. apply H. rewrite <- E.
  rewrite (@app_removelast_last _ (c :: text) NUL) at 2 by discriminate.
  apply in_or_app. right. now left.
Qed.

Lemma chomp_clean text : ~ In LF (removelast text) -> ~ In LF (chomp text).
Proof.
  intros H. unfold chomp.
  destruct (Ascii.eqb (last text NUL) LF) eqn:E; [assumption |].
  apply Ascii.eqb_neq in E. destruct text as [| c text]; [tauto |].
  rewrite (@app_removelast_last _ (c :: text) NUL) by discriminate.
  intros Hin. apply in_app_or in Hin. destruct Hin as [Hin | [Hin | []]]; [tauto | congruence].
Qed.

Lemma front_clean (front back : list ascii) :
  ~ In LF (removelast (front ++ back)) -> ~ In LF (removelast front).
Proof.
  destruct back as [| b back]; [now rewrite app_nil_r |].
  rewrite removelast_app by discriminate.
  intros H Hin. apply H, in_or_app. left. now apply in_removelast.
Qed.

End KeyFacts.

(** X9.  The key of a line read from the client holds neither a newline
    nor a NUL: whatever the client sends, the text handed to [strstr] as
    the needle is free of both. *)
Theorem key_holds_no_newline :
  forall clientInput queryLine fp' searchKey,
    fgets QUERY_LINE_SIZE clientInput = (Some queryLine, fp') ->
    extract_key queryLine = Some searchKey ->
    ~ In LF searchKey /\ ~ In NUL searchKey.
Proof.
  intros fp line fp' key Hline Hkey.
  assert (Hsize : (2 <= QUERY_LINE_SIZE)%nat) by (unfold QUERY_LINE_SIZE; lia).
  destruct (fgets_line_shape _ Hsize Hline) as (_ & _ & Hlf).
  rewrite extract_key_spec in Hkey. unfold key_of_line in Hkey.
  pose proof (until_nul_clean (firstn MAX_KEY_LENGTH line)) as Hnul.
  destruct (until_nul_prefix (firstn MAX_KEY_LENGTH line)) as [tail1 H1].
  assert (Hfront : ~ In LF (removelast (until_nul (firstn MAX_KEY_LENGTH line)))).
  { apply (@front_clean _ (tail1 ++ skipn MAX_KEY_LENGTH line)).
    rewrite app_assoc, <- H1, firstn_skipn. exact Hlf. }
  destruct (until_nul (firstn MAX_KEY_LENGTH line)) as [| c text];
    [discriminate |].
  injection Hkey as <-. split.
  - apply chomp_clean. exact Hfront.
  - destruct (chomp_prefix (c :: text)) as [tail2 H2].
    intros Hin. apply Hnul. rewrite H2. apply in_or_app. now left.
Qed.

Lemma key_holds_no_newline_witness :
  ~ In LF (lit "Ramya") /\ ~ In NUL (lit "Ramya").
Proof.
  apply (@key_holds_no_newline
           (fresh_stream (Sample.line "Ramya Iyer" ++ Sample.line "Alex") false)
           (Sample.line "Ramya Iyer")
           (advance (fresh_stream (Sample.line "Ramya Iyer" ++ Sample.line "Alex") false)
                    (Sample.line "Alex"))
           (lit "Ramya")).
  - reflexivity.
  - reflexivity.
Defined.

(** X10.  Cutting the key to five characters never hides a record: for a
    query line made of a text (no NUL, no newline) and its newline, the
    key is the first five characters of the text, and every record whose
    name or message holds the whole text matches that key. *)
Theorem cut_key_finds_what_the_text_finds :
  forall text r,
    text <> [] ->
    ~ In NUL text ->
    ~ In LF text ->
    substring text (name_text r) \/ substring text (msg_text r) ->
    extract_key (text ++ [LF]) = Some (firstn MAX_KEY_LENGTH text) /\
    matches (firstn MAX_KEY_LENGTH text) r = true.
Proof.
  intros text r Hne Hnul Hlf Hsub. split.
  - rewrite extract_key_spec. unfold key_of_line.
    destruct (Nat.le_gt_cases MAX_KEY_LENGTH (List.length text)) as [Hlong | Hshort].
    + rewrite firstn_app.
      replace (MAX_KEY_LENGTH - List.length text)%nat with O by lia.
      cbn [firstn]. rewrite app_nil_r.
      assert (Hnul5 : ~ In NUL (firstn MAX_KEY_LENGTH text))
        by (intros H; apply Hnul; eapply in_firstn; exact H).
      assert (Hlf5 : ~ In LF (firstn MAX_KEY_LENGTH text))
        by (intros H; apply Hlf; eapply in_firstn; exact H).
      rewrite until_nul_id by assumption.
      destruct (firstn MAX_KEY_LENGTH text) as [| c t] eqn:E.
      * destruct text; [congruence | discriminate E].
      * now rewrite chomp_id.
    + rewrite firstn_all2 by (rewrite length_app; cbn [List.length]; lia).
      rewrite (firstn_all2 (n := MAX_KEY_LENGTH) text) by lia.
      rewrite until_nul_id.
      * destruct text as [| c t]; [congruence |].
        cbn [app]. change (c :: t ++ [LF]) with ((c :: t) ++ [LF]).
        rewrite chomp_snoc. reflexivity.
      * intros H. apply in_app_or in H. destruct H as [H | [H | []]];
          [tauto | discriminate H].
  - apply matches_spec.
    assert (Hcut : forall field, substring text field ->
                                 substring (firstn MAX_KEY_LENGTH text) field).
    { intros field (before & after & ->).
      exists before, (skipn MAX_KEY_LENGTH text ++ after).
      rewrite (app_assoc (firstn _ _)), firstn_skipn. reflexivity. }
    destruct Hsub as [H | H]; [left | right]; apply Hcut, H.
Qed.

Lemma cut_key_finds_what_the_text_finds_witness :
  extract_key (lit "hi there" ++ [LF]) = Some (firstn MAX_KEY_LENGTH (lit "hi there")) /\
  matches (firstn MAX_KEY_LENGTH (lit "hi there"))
    (Sample.record "Ramya" "hi there") = true.
Proof.
  apply (@cut_key_finds_what_the_text_finds (lit "hi there")
           (Sample.record "Ramya" "hi there")).
  - discriminate.
  - apply no_nul. reflexivity.
  - intros H. vm_compute in H. intuition discriminate.
  - right. exists [], []. vm_compute. reflexivity.
Defined.

(** * Properties of the client *)

(** ** String functions *)

Section ClientStrings.
Import Fetcher.

Lemma strrchr_none s c : strrchr s c = None -> ~ In c s.
Proof.
  induction s as [| b s IH]; cbn; [tauto |].
  destruct (strrchr s c); [discriminate |].
  destruct (Ascii.eqb b c) eqn:E; [discriminate |].
  apply Ascii.eqb_neq in E. intros _ [H | H]; [congruence | tauto].
Qed.

(** The offset [strrchr] returns is that of the last occurrence. *)
Lemma strrchr_some s c : forall k,
  strrchr s c = Some k ->
  exists front back,
    s = front ++ c :: back /\ List.length front = k /\ ~ In c back.
Proof.
  induction s as [| b s IH]; intros k H; cbn in H; [discriminate |].
  destruct (strrchr s c) as [j |] eqn:E.
  - injection H as <-. destruct (IH j eq_refl) as (front & back & -> & Hlen & Hback).
    exists (b :: front), back. cbn. repeat split; [congruence | assumption].
  - destruct (Ascii.eqb b c) eqn:Eb; [| discriminate].
    injection H as <-. apply Ascii.eqb_eq in Eb. subst b.
    exists [], s. repeat split. now apply strrchr_none.
Qed.

Lemma code_inj a b : code a = code b -> a = b.
Proof.
  unfold code. intros H. apply N2Z.inj in H.
  rewrite <- (ascii_N_embedding a), <- (ascii_N_embedding b). now rewrite H.
Qed.

Lemma code_differ a b : Ascii.eqb a b = false -> code a - code b <> 0.
Proof.
  intros E H. apply Ascii.eqb_neq in E. apply E, code_inj. lia.
Qed.

(** [strncmp] over the whole length of a literal is zero exactly for the
    strings that start with the literal. *)
Lemma strncmp_zero literal : forall s,
  ~ In NUL literal ->
  strncmp s literal (List.length literal) = 0 ->
  exists rest, s = literal ++ rest.
Proof.
  induction literal as [| c literal IH]; intros s Hclean H; [now exists s |].
  cbn [List.length strncmp hd tl] in H.
  destruct (Ascii.eqb (hd NUL s) c) eqn:E; cbn [negb] in H.
  - apply Ascii.eqb_eq in E.
    destruct (is_nul (hd NUL s)) eqn:En.
    + apply is_nul_true in En. exfalso. apply Hclean. left. congruence.
    + destruct s as [| b s]; cbn [hd tl] in *.
      * apply is_nul_false in En. congruence.
      * subst b. destruct (IH s) as [rest ->]; [cbn in Hclean; tauto | exact H |].
        now exists rest.
  - exfalso. exact (code_differ _ _ E H).
Qed.

Lemma strncmp_front literal : forall rest,
  ~ In NUL literal ->
  strncmp (literal ++ rest) literal (List.length literal) = 0.
Proof.
  induction literal as [| c literal IH]; intros rest Hclean; [reflexivity |].
  cbn [List.length strncmp hd tl app]. rewrite Ascii.eqb_refl. cbn [negb].
  destruct (is_nul c) eqn:En.
  - apply is_nul_true in En. exfalso. apply Hclean. now left.
  - apply IH. cbn in Hclean. tauto.
Qed.

(** [strcmp] is zero exactly for equal strings. *)
Lemma strcmp_zero s1 : forall s2,
  strcmp s1 s2 = 0 <-> until_nul s1 = until_nul s2.
Proof.
  induction s1 as [| c1 s1 IH]; intros s2.
  - cbn [strcmp until_nul]. destruct s2 as [| c2 s2]; cbn [hd until_nul].
    + split; reflexivity.
    + destruct (is_nul c2) eqn:E.
      * apply is_nul_true in E. subst. split; reflexivity.
      * split; [| discriminate]. intros H. exfalso.
        apply is_nul_false in E. apply E. symmetry. apply code_inj. lia.
  - cbn [strcmp until_nul]. destruct s2 as [| c2 s2]; cbn [hd tl until_nul].
    + destruct (Ascii.eqb c1 NUL) eqn:E; cbn [negb].
      * apply Ascii.eqb_eq in E. subst. cbn. split; reflexivity.
      * replace (is_nul c1) with false by (symmetry; exact E).
        split; [| discriminate]. intros H. exfalso. exact (code_differ _ _ E H).
    + destruct (Ascii.eqb c1 c2) eqn:E; cbn [negb].
      * apply Ascii.eqb_eq in E. subst c2.
        destruct (is_nul c1); [split; reflexivity |].
        rewrite IH. split; [congruence | intros H; now injection H].
      * split.
        -- intros H. exfalso. exact (code_differ _ _ E H).
        -- apply Ascii.eqb_neq in E.
           destruct (is_nul c1) eqn:E1, (is_nul c2) eqn:E2; intros H;
             try discriminate.
           ++ apply is_nul_true in E1, E2. congruence.
           ++ injection H as H _. congruence.
Qed.

End ClientStrings.

(** The name derived from a path: what stands behind the last slash, or
    [index.html] when nothing does. *)
Lemma output_filename_plain urlPath :
  match Fetcher.output_filename urlPath with
  | None => ~ In Fetcher.SLASH urlPath
  | Some outputFilename =>
      outputFilename <> [] /\
      ~ In Fetcher.SLASH outputFilename /\
      exists front,
        urlPath = front ++ Fetcher.SLASH :: outputFilename \/
        (urlPath = front ++ [Fetcher.SLASH] /\ outputFilename = lit "index.html")
  end.
Proof.
  unfold Fetcher.output_filename.
  destruct (Fetcher.strrchr urlPath Fetcher.SLASH) as [k |] eqn:E.
  - destruct (strrchr_some _ _ E) as (front & back & -> & Hlen & Hback).
    assert (Hskip : skipn (S k) (front ++ Fetcher.SLASH :: back) = back).
    { rewrite <- Hlen. change (S (List.length front)) with (1 + List.length front)%nat.
      rewrite <- skipn_skipn, skipn_app, skipn_all, Nat.sub_diag. reflexivity. }
    rewrite Hskip. destruct back as [| b back].
    + repeat split; [discriminate | | exists front; now right].
      intros H. vm_compute in H. intuition discriminate.
    + repeat split; [discriminate | assumption | exists front; now left].
  - now apply strrchr_none.
Qed.

(** Whatever way the run ends, a file it has created bears the derived
    name. *)
Lemma main_saved_name prog hostname portStr path net status p file contents :
  Fetcher.main [prog; hostname; portStr; path] net = (status, p) ->
  Fetcher.saved p = Some (file, contents) ->
  Fetcher.output_filename (until_nul path) = Some file.
Proof.
  intros H Hs. unfold Fetcher.main in H.
  destruct (Fetcher.output_filename (until_nul path)) as [f |].
  - cbv zeta in H.
    repeat match type of H with
    | context [if ?c then _ else _] => destruct c
    | context [fgets ?a ?b] =>
        destruct (fgets a b) as [[buffer |] socketStream]
    | context [Fetcher.save_body ?a ?b ?c ?d] =>
        destruct (Fetcher.save_body a b c d) as [[written body] socketStream']
    end;
    unfold Fetcher.error_exit, Fetcher.complain in H;
    injection H as <- <-; cbn [Fetcher.saved] in Hs;
    try discriminate Hs; injection Hs as <- <-; reflexivity.
  - unfold Fetcher.usage, Fetcher.complain, Fetcher.start in H.
    injection H as <- <-. discriminate Hs.
Qed.

(** X11.  The local file is named by the part of the path behind its last
    slash, or [index.html] when the path ends in a slash.  A path without
    any slash is refused before anything is looked up or sent: the run
    ends with status 1 and the two lines of the usage text on the error
    stream, and no file is created.  On every run that creates a file, the
    name of the file is not empty and holds no slash, so the file lies in
    the current directory. *)
Theorem output_file_is_a_plain_name :
  forall prog hostname portStr path net,
    (~ In "/"%char (until_nul path) ->
     Fetcher.main [prog; hostname; portStr; path] net =
     (1, {| Fetcher.notes :=
              [Fetcher.Stderr
                 (lit "Usage: http-fetcher <hostname> <port> <path>" ++ ["010"%char]);
               Fetcher.Stderr
                 (lit "Example: http-fetcher www.example.com 80 /index.html"
                    ++ ["010"%char])];
            Fetcher.request := None;
            Fetcher.saved := None |})) /\
    (forall status p file contents,
       Fetcher.main [prog; hostname; portStr; path] net = (status, p) ->
       Fetcher.saved p = Some (file, contents) ->
       file <> [] /\
       ~ In "/"%char file /\
       exists front,
         until_nul path = front ++ "/"%char :: file \/
         (until_nul path = front ++ ["/"%char] /\ file = lit "index.html")).
Proof.
  intros prog hostname portStr path net. split.
  - intros Hnone. unfold Fetcher.main.
    destruct (Fetcher.output_filename (until_nul path)) as [f |] eqn:E;
      [| reflexivity].
    exfalso. pose proof (output_filename_plain (until_nul path)) as H.
    rewrite E in H. destruct H as (_ & _ & front & [H | [H _]]);
      apply Hnone; rewrite H; apply in_or_app; right; now left.
  - intros status p file contents Hrun Hsaved.
    pose proof (output_filename_plain (until_nul path)) as H.
    rewrite (main_saved_name _ _ _ _ _ Hrun Hsaved) in H. exact H.
Qed.

Lemma output_file_is_a_plain_name_witness :
  Fetcher.main [lit "http-fetcher"; lit "www.example.com"; lit "80"; lit "index.html"]
    (Fetcher.answer (lit "hello") false) =
  (1, {| Fetcher.notes :=
           [Fetcher.Stderr
              (lit "Usage: http-fetcher <hostname> <port> <path>" ++ ["010"%char]);
            Fetcher.Stderr
              (lit "Example: http-fetcher www.example.com 80 /index.html"
                 ++ ["010"%char])];
         Fetcher.request := None;
         Fetcher.saved := None |}) /\
  (lit "notes.txt" <> [] /\
   ~ In "/"%char (lit "notes.txt") /\
   exists front,
     until_nul (lit "/docs/notes.txt") = front ++ "/"%char :: lit "notes.txt" \/
     (until_nul (lit "/docs/notes.txt") = front ++ ["/"%char] /\
      lit "notes.txt" = lit "index.html")).
Proof.
  split.
  - apply (proj1 (output_file_is_a_plain_name
                    (lit "http-fetcher") (lit "www.example.com") (lit "80")
                    (lit "index.html") (Fetcher.answer (lit "hello") false))).
    vm_compute. intuition discriminate.
  - apply (proj2 (output_file_is_a_plain_name
                    (lit "http-fetcher") (lit "www.example.com") (lit "80")
                    (lit "/docs/notes.txt") (Fetcher.answer (lit "hello") false))
             0 {| Fetcher.notes := [];
                  Fetcher.request :=
                    Some (lit "GET /docs/notes.txt HTTP/1.0" ++ [Fetcher.CR; LF] ++
                          lit "Host: www.example.com:80" ++
                          [Fetcher.CR; LF; Fetcher.CR; LF]);
                  Fetcher.saved := Some (lit "notes.txt", lit "hello") |}
             (lit "notes.txt") (lit "hello")).
    + vm_compute. reflexivity.
    + reflexivity.
Defined.

(** ** Reading the response *)

Section ClientStreams.
Import Fetcher.

(** A complete line at the head of the stream is what [fgets] delivers. *)
Lemma fgets_complete fp l rest :
  complete_line l ->
  pending fp = l ++ rest ->
  fgets BUFFER_SIZE fp = (Some l, advance fp rest).
Proof.
  intros (text & -> & Hclean & Hlen) Hpending. unfold fgets.
  rewrite Hpending, <- app_assoc. cbn [app].
  rewrite read_line_complete; [reflexivity | assumption |].
  rewrite length_app in Hlen. cbn [List.length] in Hlen.
  unfold BUFFER_SIZE in *. lia.
Qed.

Lemma skip_headers_step socketStream :
  skip_headers socketStream =
  match fgets BUFFER_SIZE socketStream with
  | (None, fp') => fp'
  | (Some buffer, fp') => if ends_headers buffer then fp' else skip_headers fp'
  end.
Proof.
  funelim (skip_headers socketStream);
    match goal with H : fgets _ _ = _ |- _ => rewrite H end; reflexivity.
Qed.

Lemma save_body_step net socketStream contents k :
  save_body net socketStream contents k =
  match fread_bytes BUFFER_SIZE socketStream with
  | ([], fp') => (true, contents, fp')
  | (c :: chunk, fp') =>
      let bytesWritten := fwrite_ret net k (c :: chunk) in
      if negb (bytesWritten =? List.length (c :: chunk))%nat
      then (false, contents ++ firstn bytesWritten (c :: chunk), fp')
      else save_body net fp' (contents ++ c :: chunk) (S k)
  end.
Proof.
  funelim (save_body net socketStream contents k);
    match goal with H : fread_bytes _ _ = _ |- _ => rewrite H end; reflexivity.
Qed.

(** A complete line holds its newline at the end and nowhere else. *)
Lemma complete_line_starts l front tail :
  complete_line l -> l = front ++ LF :: tail -> tail = [] .
Proof.
  intros (text & -> & Hclean & _) H.
  revert front H. induction text as [| c text IH]; intros front H.
  - destruct front as [| b front]; cbn in H.
    + now injection H.
    + injection H as _ H. destruct front; discriminate.
  - destruct front as [| b front]; cbn in H.
    + injection H as -> _. exfalso. apply Hclean. now left.
    + injection H as _ H. apply (IH (fun Hin => Hclean (or_intror Hin)) front H).
Qed.

(** Among complete lines, the test that ends the headers picks the blank
    line in its two spellings and nothing else. *)
Lemma ends_headers_header l : header_line l -> ends_headers l = false.
Proof.
  intros (Hline & Hlf & Hcrlf). unfold ends_headers.
  apply orb_false_iff. split; apply Z.eqb_neq; rewrite strcmp_zero; intros H.
  - change (until_nul [CR; LF]) with [CR; LF] in H.
    destruct (until_nul_prefix l) as [tail Htail]. rewrite H in Htail.
    pose proof (@complete_line_starts l [CR] tail Hline Htail). subst tail.
    contradiction.
  - change (until_nul [LF]) with [LF] in H.
    destruct (until_nul_prefix l) as [tail Htail]. rewrite H in Htail.
    pose proof (@complete_line_starts l [] tail Hline Htail). subst tail.
    contradiction.
Qed.

Lemma advance_twice fp rest rest' : advance (advance fp rest) rest' = advance fp rest'.
Proof. reflexivity. Qed.

Lemma advance_same fp : advance fp (pending fp) = fp.
Proof. destruct fp. reflexivity. Qed.

(** Header lines are passed over one by one. *)
Lemma skip_headers_lines headers : forall fp rest,
  Forall header_line headers ->
  pending fp = List.concat headers ++ rest ->
  skip_headers fp = skip_headers (advance fp rest).
Proof.
  induction headers as [| h headers IH]; intros fp rest Hh Hpending.
  - cbn in Hpending. rewrite <- Hpending, advance_same. reflexivity.
  - inversion Hh as [| ? ? Hhead Htail]; subst.
    cbn [List.concat] in Hpending. rewrite <- app_assoc in Hpending.
    rewrite skip_headers_step.
    rewrite (@fgets_complete fp h _ (proj1 Hhead) Hpending).
    rewrite (ends_headers_header Hhead).
    rewrite (IH (advance fp (List.concat headers ++ rest)) rest Htail eq_refl).
    now rewrite advance_twice.
Qed.

(** With every write complete, the copy loop appends all that the stream
    still delivers. *)
Lemma save_body_all net :
  (forall k buf, fwrite_ret net k buf = List.length buf) ->
  forall n fp contents k,
    List.length (pending fp) = n ->
    exists fp',
      save_body net fp contents k = (true, contents ++ pending fp, fp') /\
      ferror fp' = err_ind fp || broken fp.
Proof.
  intros Hwrite. induction n as [n IH] using lt_wf_ind. intros fp contents k Hn.
  rewrite save_body_step. unfold fread_bytes.
  destruct (Nat.leb_spec BUFFER_SIZE (List.length (pending fp))) as [Hle | Hlt].
  - destruct (firstn BUFFER_SIZE (pending fp)) as [| c chunk] eqn:E.
    + apply (f_equal (@List.length _)) in E. rewrite length_firstn in E.
      cbn [List.length] in E. unfold BUFFER_SIZE in *. lia.
    + cbv zeta. rewrite Hwrite, Nat.eqb_refl. cbn [negb].
      destruct (IH (List.length (skipn BUFFER_SIZE (pending fp))))
        with (fp := advance fp (skipn BUFFER_SIZE (pending fp)))
             (contents := contents ++ c :: chunk) (k := S k)
        as (fp' & Hrun & Herr); [| reflexivity |].
      * rewrite length_skipn. unfold BUFFER_SIZE in *. lia.
      * exists fp'. rewrite Hrun. cbn [advance pending err_ind broken] in *.
        rewrite <- app_assoc, <- E, firstn_skipn. split; [reflexivity | assumption].
  - destruct (pending fp) as [| c chunk] eqn:E.
    + exists (run_dry fp). rewrite app_nil_r. split; reflexivity.
    + cbv zeta. rewrite Hwrite, Nat.eqb_refl. cbn [negb].
      destruct (IH O) with (fp := run_dry fp) (contents := contents ++ c :: chunk)
                           (k := S k) as (fp' & Hrun & Herr);
        [cbn in Hn; lia | reflexivity |].
      exists fp'. rewrite Hrun. cbn [run_dry pending err_ind broken] in *.
      rewrite app_nil_r. split; [reflexivity |].
      rewrite Herr. destruct (err_ind fp), (broken fp); reflexivity.
Qed.

(** The two checks of the status line pass for a line that starts with
    [HTTP/1.0 200] or [HTTP/1.1 200]. *)
Lemma status_line_passes statusLine tail :
  statusLine = lit "HTTP/1.0 200" ++ tail \/ statusLine = lit "HTTP/1.1 200" ++ tail ->
  negb (strncmp statusLine (lit "HTTP/1.0 ") 9 =? 0) &&
  negb (strncmp statusLine (lit "HTTP/1.1 ") 9 =? 0) = false /\
  negb (strncmp (skipn 9 statusLine) (lit "200") 3 =? 0) = false.
Proof. intros [-> | ->]; split; vm_compute; reflexivity. Qed.

(** And only for such a line. *)
Lemma status_line_passed buffer :
  negb (strncmp buffer (lit "HTTP/1.0 ") 9 =? 0) &&
  negb (strncmp buffer (lit "HTTP/1.1 ") 9 =? 0) = false ->
  negb (strncmp (skipn 9 buffer) (lit "200") 3 =? 0) = false ->
  exists tail,
    buffer = lit "HTTP/1.0 200" ++ tail \/ buffer = lit "HTTP/1.1 200" ++ tail.
Proof.
  intros Hproto Hcode.
  apply negb_false_iff, Z.eqb_eq in Hcode.
  apply andb_false_iff in Hproto.
  assert (Hrest : forall proto rest,
             List.length proto = 9%nat ->
             buffer = proto ++ rest ->
             exists tail, rest = lit "200" ++ tail).
  { intros proto rest Hlen ->.
    rewrite <- Hlen, skipn_app, skipn_all, Nat.sub_diag in Hcode.
    cbn [skipn app] in Hcode.
    exact (@strncmp_zero (lit "200") rest (@no_nul (lit "200") eq_refl) Hcode). }
  destruct Hproto as [H | H]; apply negb_false_iff, Z.eqb_eq in H.
  - destruct (@strncmp_zero (lit "HTTP/1.0 ") buffer
                (@no_nul (lit "HTTP/1.0 ") eq_refl) H) as [rest Hb].
    destruct (Hrest (lit "HTTP/1.0 ") rest eq_refl Hb) as [tail ->].
    exists tail. left. exact Hb.
  - destruct (@strncmp_zero (lit "HTTP/1.1 ") buffer
                (@no_nul (lit "HTTP/1.1 ") eq_refl) H) as [rest Hb].
    destruct (Hrest (lit "HTTP/1.1 ") rest eq_refl Hb) as [tail ->].
    exists tail. right. exact Hb.
Qed.

End ClientStreams.

(** ** The run of the client *)

Section ClientRun.
Import Fetcher.

(** Past an accepted status line and the header lines behind it, with all
    surroundings obliging: the file is created under the derived name, it
    receives whatever the stream still delivers behind the headers, and
    the exit status tells whether the stream ended in an error. *)
Lemma fetch_copies_the_rest prog host port path net f statusLine tail headers rest :
  output_filename (until_nul path) = Some f ->
  obliging net ->
  response net = statusLine ++ List.concat headers ++ rest ->
  complete_line statusLine ->
  statusLine = lit "HTTP/1.0 200" ++ tail \/ statusLine = lit "HTTP/1.1 200" ++ tail ->
  Forall header_line headers ->
  let after :=
    skip_headers (advance (fresh_stream (response net) (response_fails net)) rest) in
  exists p,
    Fetcher.main [prog; host; port; path] net =
      (if err_ind after || broken after
       then (1, complain (Perror "fread failed") p)
       else (0, p)) /\
    saved p = Some (f, pending after) /\
    notes p = [].
Proof.
  intros Hfile (Hr & Hs & Hc & Hst & Hcr & Hwire & Hwrite) Hresp Hline Hstatus
    Hheaders after.
  unfold Fetcher.main. rewrite Hfile, Hr, Hs, Hc, Hst, Hcr. cbn [negb]. cbv zeta.
  rewrite Hwire. unfold strlen. rewrite Z.eqb_refl. cbn [negb].
  rewrite (@fgets_complete (fresh_stream (response net) (response_fails net))
             statusLine (List.concat headers ++ rest) Hline Hresp).
  destruct (status_line_passes Hstatus) as [Hproto Hcode].
  rewrite Hproto, Hcode.
  rewrite (@skip_headers_lines headers
             (advance (fresh_stream (response net) (response_fails net))
                      (List.concat headers ++ rest))
             rest Hheaders eq_refl).
  rewrite advance_twice. fold after.
  destruct (@save_body_all net Hwrite _ after [] 0 eq_refl) as (fp' & Hsave & Herr).
  rewrite Hsave. cbv beta iota. cbn [negb app]. rewrite Herr.
  eexists. split; [destruct (err_ind after || broken after); reflexivity |].
  split; reflexivity.
Qed.

Lemma blank_line_complete sep :
  sep = [LF] \/ sep = [CR; LF] -> complete_line sep /\ ends_headers sep = true.
Proof.
  intros [-> | ->]; (split; [| reflexivity]).
  - exists []. repeat split; [tauto | unfold BUFFER_SIZE; cbn; lia].
  - exists [CR]. repeat split; [| unfold BUFFER_SIZE; cbn; lia].
    intros [H | []]. discriminate H.
Qed.

End ClientRun.

(** X12.  A file is written only for an accepted response: whenever the
    client leaves a local file behind, and in particular whenever it exits
    with status 0, the first line of the response started with
    [HTTP/1.0 200] or [HTTP/1.1 200]. *)
Theorem file_only_for_status_200 :
  forall argv net status p,
    Fetcher.main argv net = (status, p) ->
    (status = 0 -> Fetcher.saved p <> None) /\
    (Fetcher.saved p <> None ->
     exists statusLine fp tail,
       fgets Fetcher.BUFFER_SIZE
         (fresh_stream (Fetcher.response net) (Fetcher.response_fails net)) =
         (Some statusLine, fp) /\
       (statusLine = lit "HTTP/1.0 200" ++ tail \/
        statusLine = lit "HTTP/1.1 200" ++ tail)).
Proof.
  intros argv net status p H. unfold Fetcher.main in H.
  assert (Hquit : forall r : Z * Fetcher.progress,
             fst r = 1 ->
             Fetcher.saved (snd r) = None ->
             r = (status, p) ->
             (status = 0 -> Fetcher.saved p <> None) /\
             (Fetcher.saved p <> None ->
              exists statusLine fp tail,
                fgets Fetcher.BUFFER_SIZE
                  (fresh_stream (Fetcher.response net) (Fetcher.response_fails net)) =
                  (Some statusLine, fp) /\
                (statusLine = lit "HTTP/1.0 200" ++ tail \/
                 statusLine = lit "HTTP/1.1 200" ++ tail))).
  { intros r Hr Hq ->. cbn [fst snd] in *. subst status.
    split; [discriminate | congruence]. }
  destruct argv as [| a0 [| a1 [| a2 [| a3 [| a4 more]]]]];
    try ((refine (Hquit _ _ _ H); reflexivity)).
  destruct (Fetcher.output_filename (until_nul a3)) as [f |];
    [| (refine (Hquit _ _ _ H); reflexivity)].
  destruct (Fetcher.resolves net); [| (refine (Hquit _ _ _ H); reflexivity)].
  destruct (Fetcher.socket_made net); [| (refine (Hquit _ _ _ H); reflexivity)].
  destruct (Fetcher.connects net); [| (refine (Hquit _ _ _ H); reflexivity)].
  cbn [negb] in H. cbv zeta in H.
  destruct (negb (Fetcher.wire net _ =? _)); [(refine (Hquit _ _ _ H); reflexivity) |].
  destruct (Fetcher.stream_ok net); [| (refine (Hquit _ _ _ H); reflexivity)].
  cbn [negb] in H.
  destruct (fgets Fetcher.BUFFER_SIZE _) as [[buffer |] fp] eqn:Eline.
  - destruct (negb (Fetcher.strncmp buffer (lit "HTTP/1.0 ") 9 =? 0) &&
              negb (Fetcher.strncmp buffer (lit "HTTP/1.1 ") 9 =? 0)) eqn:Eproto;
      [(refine (Hquit _ _ _ H); reflexivity) |].
    destruct (negb (Fetcher.strncmp (skipn 9 buffer) (lit "200") 3 =? 0)) eqn:Ecode;
      [(refine (Hquit _ _ _ H); reflexivity) |].
    destruct (status_line_passed buffer Eproto Ecode) as [tail Htail].
    destruct (Fetcher.creates net); [| (refine (Hquit _ _ _ H); reflexivity)].
    cbn [negb] in H.
    split.
    + intros _.
      destruct (Fetcher.save_body net (Fetcher.skip_headers fp) [] 0)
        as [[written contents] fp'].
      destruct written; cbn [negb] in H;
        [destruct (ferror fp') |]; injection H as _ <-; discriminate.
    + intros _. exists buffer, fp, tail. split; [reflexivity | exact Htail].
  - destruct (ferror fp); (refine (Hquit _ _ _ H); reflexivity).
Qed.

Lemma file_only_for_status_200_witness :
  (0 = 0 ->
   Fetcher.saved (snd (Fetcher.main Fetcher.argv_example
                         (Fetcher.answer (lit "hello") false))) <> None) /\
  (Fetcher.saved (snd (Fetcher.main Fetcher.argv_example
                         (Fetcher.answer (lit "hello") false))) <> None ->
   exists statusLine fp tail,
     fgets Fetcher.BUFFER_SIZE
       (fresh_stream (Fetcher.response (Fetcher.answer (lit "hello") false))
          (Fetcher.response_fails (Fetcher.answer (lit "hello") false))) =
       (Some statusLine, fp) /\
     (statusLine = lit "HTTP/1.0 200" ++ tail \/
      statusLine = lit "HTTP/1.1 200" ++ tail)).
Proof.
  apply (@file_only_for_status_200 Fetcher.argv_example
           (Fetcher.answer (lit "hello") false) 0).
  vm_compute. reflexivity.
Defined.



(** X14.  A transfer that breaks off leaves what arrived: if the stream
    fails with a read error behind the bytes [body] of the body, the
    client exits with status 1 after the diagnostic of [fread], and the
    local file has been created and holds those bytes. *)
Theorem broken_transfer_leaves_what_arrived :
  forall prog host port path net f statusLine tail headers sep body,
    Fetcher.output_filename (until_nul path) = Some f ->
    Fetcher.obliging net ->
    Fetcher.response net = statusLine ++ List.concat headers ++ sep ++ body ->
    Fetcher.response_fails net = true ->
    Fetcher.complete_line statusLine ->
    statusLine = lit "HTTP/1.0 200" ++ tail \/ statusLine = lit "HTTP/1.1 200" ++ tail ->
    Forall Fetcher.header_line headers ->
    sep = [LF] \/ sep = [Fetcher.CR; LF] ->
    exists p,
      Fetcher.main [prog; host; port; path] net = (1, p) /\
      Fetcher.saved p = Some (f, body) /\
      Fetcher.notes p = [Fetcher.Perror "fread failed"].
Proof.
  intros prog host port path net f statusLine tail headers sep body
    Hfile Hob Hresp Hfails Hline Hstatus Hheaders Hsep.
  destruct (@fetch_copies_the_rest prog host port path net f statusLine tail
              headers (sep ++ body) Hfile Hob Hresp Hline Hstatus Hheaders)
    as (p & Hrun & Hsaved & Hnotes).
  destruct (blank_line_complete Hsep) as [Hblank Hends].
  rewrite skip_headers_step in Hrun, Hsaved.
  rewrite (@fgets_complete
             (advance (fresh_stream (Fetcher.response net) (Fetcher.response_fails net))
                      (sep ++ body))
             sep body Hblank eq_refl), Hends, advance_twice
    in Hrun, Hsaved.
  cbn [advance fresh_stream pending err_ind broken] in Hrun, Hsaved.
  rewrite Hfails in Hrun. cbn [orb] in Hrun.
  exists (Fetcher.complain (Fetcher.Perror "fread failed") p).
  split; [exact Hrun |]. unfold Fetcher.complain. cbn [Fetcher.saved Fetcher.notes].
  rewrite Hnotes. split; [assumption | reflexivity].
Qed.

Lemma broken_transfer_leaves_what_arrived_witness :
  exists p,
    Fetcher.main
      [lit "http-fetcher"; lit "www.example.com"; lit "80"; lit "/docs/"]
      (Fetcher.answer (lit "hel") true) = (1, p) /\
    Fetcher.saved p = Some (lit "index.html", lit "hel") /\
    Fetcher.notes p = [Fetcher.Perror "fread failed"].
Proof.
  apply (@broken_transfer_leaves_what_arrived (lit "http-fetcher")
           (lit "www.example.com") (lit "80") (lit "/docs/")
           (Fetcher.answer (lit "hel") true)
           (lit "index.html")
           (lit "HTTP/1.0 200 OK" ++ [Fetcher.CR; LF])
           (lit " OK" ++ [Fetcher.CR; LF])
           [lit "Content-Type: text/plain" ++ [Fetcher.CR; LF];
            lit "Server: demo" ++ [LF]]
           [Fetcher.CR; LF] (lit "hel")).
  - reflexivity.
  - repeat split; reflexivity.
  - reflexivity.
  - reflexivity.
  - exists (lit "HTTP/1.0 200 OK" ++ [Fetcher.CR]).
    repeat split; [apply no_lf; reflexivity | vm_compute; lia].
  - left. reflexivity.
  - repeat apply Forall_cons; try apply Forall_nil.
    + split; [| split; discriminate].
      exists (lit "Content-Type: text/plain" ++ [Fetcher.CR]).
      repeat split; [apply no_lf; reflexivity | vm_compute; lia].
    + split; [| split; discriminate].
      exists (lit "Server: demo").
      repeat split; [apply no_lf; reflexivity | vm_compute; lia].
  - right. reflexivity.
Defined.



(** ** Lines as long as the buffer *)

Section FullBuffer.
Import Fetcher.

(** With no newline among the first [room] characters, [fgets] stops when
    the room is used up and leaves the rest in the stream. *)
Lemma read_line_full long : forall more,
  ~ In LF long ->
  read_line (List.length long) (long ++ more) = (long, more, false).
Proof.
  induction long as [| c long IH]; intros more Hclean; [reflexivity |].
  cbn [List.length app read_line].
  destruct (Ascii.eqb c LF) eqn:E.
  - apply Ascii.eqb_eq in E. exfalso. apply Hclean. now left.
  - rewrite IH; [reflexivity | cbn in Hclean; tauto].
Qed.

Lemma fgets_full size fp long more :
  ~ In LF long ->
  S (List.length long) = size ->
  pending fp = long ++ more ->
  fgets size fp = (Some long, advance fp more).
Proof.
  intros Hclean <- Hpending. unfold fgets. rewrite Hpending.
  replace (S (List.length long) - 1)%nat with (List.length long) by lia.
  now rewrite read_line_full.
Qed.

Lemma fgets_at_end size fp :
  pending fp = [] -> broken fp = false -> (2 <= size)%nat ->
  fgets size fp = (None, run_dry fp).
Proof.
  intros Hp Hb Hsize. unfold fgets. rewrite Hp, Hb.
  destruct (size - 1)%nat eqn:E; [lia | reflexivity].
Qed.

(** No text without newline passes for the blank line. *)
Lemma ends_headers_no_newline long : ~ In LF long -> ends_headers long = false.
Proof.
  intros Hclean. unfold ends_headers.
  apply orb_false_iff. split; apply Z.eqb_neq; rewrite strcmp_zero; intros H;
    destruct (until_nul_prefix long) as [tail Htail]; rewrite H in Htail;
    apply Hclean; rewrite Htail; cbn; tauto.
Qed.

Lemma sent_reply_all store sock n key :
  accepts_all sock ->
  sent_bufs (reply_events store sock n key) =
  map line_of (Search store key) ++ [blank_line].
Proof.
  intros Hall. unfold reply_events. cbv zeta.
  now rewrite sent_bufs_app, sentinel_sent, attempted_all.
Qed.

End FullBuffer.

(** X16.  A query line of exactly 999 characters is answered twice: [fgets]
    delivers the 999 characters as one line and the newline left over as a
    second one, whose key is empty; a peer that takes its lines is sent the
    results for the first five characters and then, unasked, a result line
    for every record of the store. *)
Theorem full_line_is_answered_twice :
  forall store sock long s,
    Forall well_formed store ->
    accepts_all sock ->
    S (List.length long) = QUERY_LINE_SIZE ->
    ~ In LF long ->
    ~ In NUL long ->
    exists fp' s' evs searchKey,
      query_loop store sock (fresh_stream (long ++ [LF]) false) s = Ok fp' s' /\
      trace s' = trace s ++ evs /\
      extract_key long = Some searchKey /\
      received evs = [long; [LF]] /\
      sent_bufs evs =
        (map line_of (Search store searchKey) ++ [blank_line]) ++
        (map line_of (enumerate 0 store) ++ [blank_line]).
Proof.
  intros store sock long s Hwf Hall Hlen Hlf Hnul.
  assert (Hsize : (2 <= QUERY_LINE_SIZE)%nat) by (unfold QUERY_LINE_SIZE; lia).
  destruct long as [| c long]; [unfold QUERY_LINE_SIZE in Hlen; discriminate |].
  destruct (@extract_key_defined c long) as [key Hkey];
    [intros ->; apply Hnul; now left |].
  set (fp0 := fresh_stream ((c :: long) ++ [LF]) false).
  rewrite query_loop_step.
  rewrite (@fgets_full QUERY_LINE_SIZE fp0 (c :: long) [LF] Hlf Hlen eq_refl).
  rewrite (@respond_exact store sock (c :: long) key _ Hwf Hkey).
  cbn [log trace nsend].
  rewrite query_loop_step.
  rewrite (@fgets_line QUERY_LINE_SIZE (advance fp0 [LF]) [] []);
    [| tauto | unfold QUERY_LINE_SIZE; cbn; lia | reflexivity].
  cbn [app].
  rewrite (@respond_exact store sock [LF] [] _ Hwf eq_refl).
  cbn [log trace nsend].
  rewrite query_loop_step, advance_twice.
  rewrite (@fgets_at_end QUERY_LINE_SIZE (advance fp0 []) eq_refl eq_refl Hsize).
  do 2 eexists.
  exists (EvRecv (c :: long) :: reply_events store sock (nsend s) key ++
          EvRecv [LF] ::
          reply_events store sock
            (nsend s + List.length (sent_bufs (reply_events store sock (nsend s) key)))
            []),
    key.
  split; [reflexivity |]. split; [| split; [exact Hkey | split]].
  - cbn [trace]. rewrite <- !app_assoc. reflexivity.
  - cbn [received]. rewrite received_app, received_reply. cbn [received app].
    now rewrite received_reply.
  - cbn [sent_bufs]. rewrite sent_bufs_app. cbn [sent_bufs].
    rewrite !sent_reply_all by assumption.
    replace (Search store []) with (enumerate 0 store); [reflexivity |].
    symmetry. apply filter_all. intros p. apply matches_empty_key.
Qed.

Lemma full_line_is_answered_twice_witness :
  exists fp' s' evs searchKey,
    query_loop Sample.store2 Sample.taking_all
      (fresh_stream (repeat "y"%char 999 ++ [LF]) false) Sample.start = Ok fp' s' /\
    trace s' = trace Sample.start ++ evs /\
    extract_key (repeat "y"%char 999) = Some searchKey /\
    received evs = [repeat "y"%char 999; [LF]] /\
    sent_bufs evs =
      (map line_of (Search Sample.store2 searchKey) ++ [blank_line]) ++
      (map line_of (enumerate 0 Sample.store2) ++ [blank_line]).
Proof.
  apply (@full_line_is_answered_twice Sample.store2 Sample.taking_all
           (repeat "y"%char 999) Sample.start).
  - exact store2_well_formed.
  - exact taking_all_accepts.
  - vm_compute. reflexivity.
  - apply no_lf. vm_compute. reflexivity.
  - apply no_nul. vm_compute. reflexivity.
Defined.

(** X17.  A header line that fills the buffer ends the headers early: when
    a line behind the status line has exactly 4095 characters in front of
    its newline, [fgets] delivers that newline as a line of its own, the
    client takes it for the blank line, and everything behind it, further
    header lines included, is written to the local file. *)
Theorem buffer_long_header_ends_the_headers :
  forall prog host port path net f statusLine tail long rest,
    Fetcher.output_filename (until_nul path) = Some f ->
    Fetcher.obliging net ->
    Fetcher.response net = statusLine ++ long ++ [LF] ++ rest ->
    Fetcher.response_fails net = false ->
    Fetcher.complete_line statusLine ->
    statusLine = lit "HTTP/1.0 200" ++ tail \/ statusLine = lit "HTTP/1.1 200" ++ tail ->
    S (List.length long) = Fetcher.BUFFER_SIZE ->
    ~ In LF long ->
    exists p,
      Fetcher.main [prog; host; port; path] net = (0, p) /\
      Fetcher.saved p = Some (f, rest) /\
      Fetcher.notes p = [].
Proof.
  intros prog host port path net f statusLine tail long rest
    Hfile Hob Hresp Hfails Hline Hstatus Hlen Hlf.
  destruct (@fetch_copies_the_rest prog host port path net f statusLine tail
              [] (long ++ [LF] ++ rest) Hfile Hob Hresp Hline Hstatus (Forall_nil _))
    as (p & Hrun & Hsaved & Hnotes).
  set (fp0 := fresh_stream (Fetcher.response net) (Fetcher.response_fails net)) in *.
  rewrite skip_headers_step in Hrun, Hsaved.
  rewrite (@fgets_full Fetcher.BUFFER_SIZE (advance fp0 (long ++ [LF] ++ rest))
             long ([LF] ++ rest) Hlf Hlen eq_refl) in Hrun, Hsaved.
  rewrite (@ends_headers_no_newline long Hlf), advance_twice in Hrun, Hsaved.
  rewrite skip_headers_step in Hrun, Hsaved.
  rewrite (@fgets_line Fetcher.BUFFER_SIZE (advance fp0 ([LF] ++ rest)) [] rest)
    in Hrun, Hsaved;
    [| tauto | unfold Fetcher.BUFFER_SIZE; cbn; lia | reflexivity
     | tauto | unfold Fetcher.BUFFER_SIZE; cbn; lia | reflexivity].
  change (Fetcher.ends_headers ([] ++ [LF])) with true in Hrun, Hsaved.
  cbv beta iota in Hrun, Hsaved. rewrite advance_twice in Hrun, Hsaved.
  subst fp0. cbn [advance fresh_stream pending err_ind broken] in Hrun, Hsaved.
  rewrite Hfails in Hrun. exists p. repeat split; assumption.
Qed.

Lemma buffer_long_header_ends_the_headers_witness :
  exists p,
    Fetcher.main
      [lit "http-fetcher"; lit "www.example.com"; lit "80"; lit "/a.txt"]
      {| Fetcher.resolves := true; Fetcher.socket_made := true;
         Fetcher.connects := true;
         Fetcher.wire := fun buf => Z.of_nat (List.length buf);
         Fetcher.stream_ok := true;
         Fetcher.response :=
           (lit "HTTP/1.1 200 OK" ++ [LF]) ++ repeat "x"%char 4095 ++ [LF] ++
           (lit "Server: demo" ++ [LF] ++ [LF] ++ lit "hello");
         Fetcher.response_fails := false;
         Fetcher.creates := true;
         Fetcher.fwrite_ret := fun _ buf => List.length buf |} = (0, p) /\
    Fetcher.saved p =
      Some (lit "a.txt", lit "Server: demo" ++ [LF] ++ [LF] ++ lit "hello") /\
    Fetcher.notes p = [].
Proof.
  apply (@buffer_long_header_ends_the_headers (lit "http-fetcher")
           (lit "www.example.com") (lit "80") (lit "/a.txt")
           {| Fetcher.resolves := true; Fetcher.socket_made := true;
              Fetcher.connects := true;
              Fetcher.wire := fun buf => Z.of_nat (List.length buf);
              Fetcher.stream_ok := true;
              Fetcher.response :=
                (lit "HTTP/1.1 200 OK" ++ [LF]) ++ repeat "x"%char 4095 ++ [LF] ++
                (lit "Server: demo" ++ [LF] ++ [LF] ++ lit "hello");
              Fetcher.response_fails := false;
              Fetcher.creates := true;
              Fetcher.fwrite_ret := fun _ buf => List.length buf |}
           (lit "a.txt")
           (lit "HTTP/1.1 200 OK" ++ [LF])
           (lit " OK" ++ [LF])
           (repeat "x"%char 4095)
           (lit "Server: demo" ++ [LF] ++ [LF] ++ lit "hello")).
  - reflexivity.
  - repeat split; reflexivity.
  - reflexivity.
  - reflexivity.
  - exists (lit "HTTP/1.1 200 OK").
    repeat split; [apply no_lf; reflexivity | vm_compute; lia].
  - right. reflexivity.
  - vm_compute. reflexivity.
  - apply no_lf. vm_compute. reflexivity.
Defined.
